(** * ticket-app: the client utilities [descPagination] and [ErrorHandler]

    A shallow embedding of [client/src/utils.js].

    Numbers.  The pagination arguments are JavaScript numbers holding
    integers.  [Double.descPagination] is the function in the arithmetic of
    the code, binary64 with its rounding written out;
    [Pagination.descPagination] is the same text in exact integer
    arithmetic.  The two agree as long as the arguments and every
    intermediate result stay within [2 ^ 53] in magnitude
    ([descPagination_in_range]); beyond that the code rounds.

    Strings.  A JavaScript string is modelled as a [string]; the six
    patterns of the table are plain ASCII. *)

From Stdlib Require Import ZArith Bool List String Ascii Lia DecimalString.
From Stdlib Require SpecFloat.
Import ListNotations.

Local Open Scope string_scope.
Local Open Scope Z_scope.

(** ** Pagination *)

Module Pagination.

(** The object literal [{ maxId, minId, hasPrev, hasNext }]. *)
Record PageWindow : Type := mkPageWindow {
  maxId : Z;
  minId : Z;
  hasPrev : bool;
  hasNext : bool
}.

(** [descPagination(total, page = 1, perPage = 10, zeroBased = true)],
    line by line; the parameter [total] is reassigned on the first line of
    the body, which the inner [let total] shadows.  The operations are those
    of the integers: what the code computes while nothing is rounded. *)
Definition descPagination (total page perPage : Z) (zeroBased : bool)
  : PageWindow :=
  let total := if zeroBased then total - 1 else total in
  let maxId := total - ((page - 1) * perPage) in
  let min := if zeroBased then -1 else 0 in
  let minId := if (maxId - perPage) <? min then min else maxId - perPage in
  let hasPrev := maxId <? total in
  let hasNext := minId >? min in
  {| maxId := maxId; minId := minId; hasPrev := hasPrev; hasNext := hasNext |}.

(** A call that leaves out the optional arguments takes the defaults. *)
Definition descPagination_defaults
  (total : Z) (page perPage : option Z) (zeroBased : option bool) : PageWindow :=
  descPagination total
    (match page with Some p => p | None => 1 end)
    (match perPage with Some n => n | None => 10 end)
    (match zeroBased with Some b => b | None => true end).

(** The window as the specification words it (section 4.1, steps 1 to 6). *)
Definition effectiveTotal (total : Z) (zeroBased : bool) : Z :=
  if zeroBased then total - 1 else total.

Definition floor (zeroBased : bool) : Z :=
  if zeroBased then -1 else 0.

Definition spec_window (total page perPage : Z) (zeroBased : bool)
  : PageWindow :=
  let top := effectiveTotal total zeroBased in
  let hi := top - (page - 1) * perPage in
  let lo := Z.max (hi - perPage) (floor zeroBased) in
  {| maxId := hi;
     minId := lo;
     hasPrev := if Z_lt_dec hi top then true else false;
     hasNext := if Z_gt_dec lo (floor zeroBased) then true else false |}.

End Pagination.

(** ** Numbers as the code has them: binary64 holding integers *)

Module Double.

(** A binary64 value has 53 significant bits and stays below [2 ^ 1024]. *)
Definition precision : Z := 53.
Definition emax : Z := 1024.

(** The numbers that arise when the arguments hold integers: the integers a
    binary64 value can hold, the two infinities and NaN.  The two zeros are
    one [Finite 0]: subtraction, multiplication and comparison, the only
    operations of [descPagination], never tell them apart. *)
Inductive number : Type :=
| NaN
| Infinity (negative : bool)
| Finite (z : Z).

(** Rounding a magnitude to 53 significant bits, to nearest, ties to even:
    [e] low bits are dropped, [q] is what stays and [r] what is dropped. *)
Definition round_magnitude (a : Z) : Z :=
  if a <? 2 ^ precision then a
  else
    let e := Z.log2 a - (precision - 1) in
    let q := a / 2 ^ e in
    let r := a mod 2 ^ e in
    let half := 2 ^ (e - 1) in
    let q' :=
      if r <? half then q
      else if half <? r then q + 1
      else if Z.even q then q else q + 1 in
    q' * 2 ^ e.

(** The binary64 value of an exact integer result; past the largest finite
    value it is an infinity. *)
Definition round (z : Z) : number :=
  let m := round_magnitude (Z.abs z) in
  if m <? 2 ^ emax then Finite (Z.sgn z * m) else Infinity (z <? 0).

(** [x - y]. *)
Definition sub (x y : number) : number :=
  match x, y with
  | NaN, _ => NaN
  | _, NaN => NaN
  | Infinity a, Infinity b => if Bool.eqb a b then NaN else Infinity a
  | Infinity a, Finite _ => Infinity a
  | Finite _, Infinity b => Infinity (negb b)
  | Finite a, Finite b => round (a - b)
  end.

(** [x * y]. *)
Definition mul (x y : number) : number :=
  match x, y with
  | NaN, _ => NaN
  | _, NaN => NaN
  | Infinity a, Infinity b => Infinity (xorb a b)
  | Infinity a, Finite z => if z =? 0 then NaN else Infinity (xorb a (z <? 0))
  | Finite z, Infinity b => if z =? 0 then NaN else Infinity (xorb (z <? 0) b)
  | Finite a, Finite b => round (a * b)
  end.

(** [x < y]; a comparison with NaN is false. *)
Definition lt (x y : number) : bool :=
  match x, y with
  | NaN, _ => false
  | _, NaN => false
  | Infinity a, Infinity b => a && negb b
  | Infinity a, Finite _ => a
  | Finite _, Infinity b => negb b
  | Finite a, Finite b => a <? b
  end.

(** [x > y]. *)
Definition gt (x y : number) : bool := lt y x.

(** The object literal [{ maxId, minId, hasPrev, hasNext }]. *)
Record PageWindow : Type := mkPageWindow {
  maxId : number;
  minId : number;
  hasPrev : bool;
  hasNext : bool
}.

(** [descPagination(total, page = 1, perPage = 10, zeroBased = true)], line
    by line, in the arithmetic of the code. *)
Definition descPagination (total page perPage : number) (zeroBased : bool)
  : PageWindow :=
  let total := if zeroBased then sub total (Finite 1) else total in
  let maxId := sub total (mul (sub page (Finite 1)) perPage) in
  let min := if zeroBased then Finite (-1) else Finite 0 in
  let minId := if lt (sub maxId perPage) min then min else sub maxId perPage in
  let hasPrev := lt maxId total in
  let hasNext := gt minId min in
  {| maxId := maxId; minId := minId; hasPrev := hasPrev; hasNext := hasNext |}.

(** A window of integers, read as a window of numbers. *)
Definition of_integers (w : Pagination.PageWindow) : PageWindow :=
  {| maxId := Finite (Pagination.maxId w);
     minId := Finite (Pagination.minId w);
     hasPrev := Pagination.hasPrev w;
     hasNext := Pagination.hasNext w |}.

(** The arguments on which [descPagination] never rounds: the arguments and
    every exact intermediate result ([total - 1] when zero-based, [page - 1],
    the product, [maxId] and [maxId - perPage]) have magnitude at most
    [2 ^ 53], where binary64 holds every integer. *)
Definition in_range (total page perPage : Z) (zeroBased : bool) : Prop :=
  let top := if zeroBased then total - 1 else total in
  let hi := top - (page - 1) * perPage in
  Z.abs total <= 2 ^ 53 /\
  Z.abs page <= 2 ^ 53 /\
  Z.abs perPage <= 2 ^ 53 /\
  Z.abs top <= 2 ^ 53 /\
  Z.abs (page - 1) <= 2 ^ 53 /\
  Z.abs ((page - 1) * perPage) <= 2 ^ 53 /\
  Z.abs hi <= 2 ^ 53 /\
  Z.abs (hi - perPage) <= 2 ^ 53.

(** An integer a binary64 value can hold. *)
Definition representable (z : Z) : Prop := round z = Finite z.

(** The same numbers in the Standard Library's specification of IEEE 754
    arithmetic, for comparison. *)
Definition to_spec_float (x : number) : SpecFloat.spec_float :=
  match x with
  | NaN => SpecFloat.S754_nan
  | Infinity negative => SpecFloat.S754_infinity negative
  | Finite z => SpecFloat.binary_normalize precision emax z 0 false
  end.

End Double.

(** ** The JavaScript values the classifier can be handed *)

Module Js.

(** The one exception the modelled operations raise. *)
Inductive exn : Type := TypeError.

(** An evaluation either completes with a value or throws. *)
Inductive completion (A : Type) : Type :=
| Normal (a : A)
| Throw (e : exn).

Arguments Normal {A} a.
Arguments Throw {A} e.

Definition bind {A B : Type} (c : completion A) (k : A -> completion B)
  : completion B :=
  match c with
  | Normal a => k a
  | Throw e => Throw e
  end.

Notation "x <- c ;; k" := (bind c (fun x => k))
  (at level 61, c at next level, right associativity).

(** An instance of [Error] (or of a subclass): its [name] and [message]. *)
Record ErrorObject : Type := mkError {
  error_name : string;
  error_message : string
}.

(** The values: the primitives, native errors, and ordinary objects given by
    their own string-keyed data properties (the prototype is
    [Object.prototype]; of two bindings of a key the first one counts). *)
#[warnings="-register-all"]
Inductive value : Type :=
| VUndefined
| VNull
| VBoolean (b : bool)
| VNumber (n : Z)
| VString (s : string)
| VSymbol (description : string)
| VError (e : ErrorObject)
| VObject (props : list (string * value)).

(** [typeof v]. *)
Definition typeof (v : value) : string :=
  match v with
  | VUndefined => "undefined"
  | VNull => "object"
  | VBoolean _ => "boolean"
  | VNumber _ => "number"
  | VString _ => "string"
  | VSymbol _ => "symbol"
  | VError _ => "object"
  | VObject _ => "object"
  end.

(** [v instanceof Error]. *)
Definition instanceof_Error (v : value) : bool :=
  match v with
  | VError _ => true
  | _ => false
  end.

(** Truthiness, as [&&] and [?:] test it. *)
Definition ToBoolean (v : value) : bool :=
  match v with
  | VUndefined => false
  | VNull => false
  | VBoolean b => b
  | VNumber n => negb (n =? 0)
  | VString s => negb (String.eqb s "")
  | VSymbol _ => true
  | VError _ => true
  | VObject _ => true
  end.

Fixpoint own_property (key : string) (props : list (string * value))
  : option value :=
  match props with
  | [] => None
  | (k, v) :: rest => if String.eqb k key then Some v else own_property key rest
  end.

(** [v.message]: reading a property of [null] or [undefined] throws; no
    primitive has a [message]; an error has its own; an ordinary object has
    it when it is among its properties. *)
Definition Get_message (v : value) : completion value :=
  match v with
  | VUndefined => Throw TypeError
  | VNull => Throw TypeError
  | VBoolean _ => Normal VUndefined
  | VNumber _ => Normal VUndefined
  | VString _ => Normal VUndefined
  | VSymbol _ => Normal VUndefined
  | VError e => Normal (VString (error_message e))
  | VObject props =>
      match own_property "message" props with
      | Some m => Normal m
      | None => Normal VUndefined
      end
  end.

(** The decimal rendering of an integer-valued number, as [ToString] gives
    it below [10 ^ 21] in magnitude (from there on JavaScript switches to
    exponent notation; no rendering of a number has a blank in it). *)
Definition Number_toString (n : Z) : string :=
  NilZero.string_of_int (Z.to_int n).

(** [Error.prototype.toString]. *)
Definition Error_toString (e : ErrorObject) : string :=
  if String.eqb (error_name e) "" then error_message e
  else if String.eqb (error_message e) "" then error_name e
  else (error_name e ++ ": " ++ error_message e)%string.

(** [ToString v], the coercion the [Error] constructor applies to its
    argument.  A symbol cannot be converted.  An ordinary object goes
    through [Object.prototype.toString], unless an own data property
    [toString] hides it: that property is not callable, [valueOf] gives back
    the object, and the conversion fails. *)
Definition ToString (v : value) : completion string :=
  match v with
  | VUndefined => Normal "undefined"
  | VNull => Normal "null"
  | VBoolean b => Normal (if b then "true" else "false")
  | VNumber n => Normal (Number_toString n)
  | VString s => Normal s
  | VSymbol _ => Throw TypeError
  | VError e => Normal (Error_toString e)
  | VObject props =>
      match own_property "toString" props with
      | Some _ => Throw TypeError
      | None => Normal "[object Object]"
      end
  end.

(** [new Error(v)]: with [undefined] the instance gets no own message and
    reads the prototype's empty one. *)
Definition new_Error (v : value) : completion ErrorObject :=
  match v with
  | VUndefined => Normal (mkError "Error" "")
  | _ => s <- ToString v ;; Normal (mkError "Error" s)
  end.

(** [s.startsWith(search)] at position 0. *)
Fixpoint startsWith (s search : string) {struct search} : bool :=
  match search with
  | EmptyString => true
  | String c search' =>
      match s with
      | EmptyString => false
      | String d s' => Ascii.eqb c d && startsWith s' search'
      end
  end.

(** [s.includes(search)]: [search] occurs in [s] at some position. *)
Fixpoint includes (s search : string) : bool :=
  startsWith s search ||
  match s with
  | EmptyString => false
  | String _ s' => includes s' search
  end.

End Js.

(** ** Error classification *)

Module Classifier.
Import Js.

(** An entry of [ERRORS], and what the three getters deliver. *)
Record ErrorRecord : Type := mkRecord {
  rec_displayError : bool;
  rec_log : bool;
  rec_message : string
}.

(** The constant [ERRORS]: an object literal, its keys in the order written
    (none of them is an array index, so [Object.keys] keeps that order). *)
Definition ERRORS : list (string * ErrorRecord) :=
  [ ("You have no Metamask installed",
     mkRecord true false "You have no Metamask installed.");
    ("You are connected to the wrong network",
     mkRecord true false "You are connected to the wrong network.");
    ("User rejected the request",
     mkRecord true false "You rejected the connect request.");
    ("User denied transaction signature",
     mkRecord false false
       "MetaMask Tx Signature: User denied transaction signature.");
    ("Loketh: Organizer can not buy their own event",
     mkRecord true false "You can not buy a ticket from your own event.");
    ("Loketh: Participant already bought the ticket",
     mkRecord true false "You are already buy this ticket.") ].

Definition Object_keys (o : list (string * ErrorRecord)) : list string :=
  map fst o.

(** [o[key]]. *)
Fixpoint lookup (key : string) (o : list (string * ErrorRecord))
  : option ErrorRecord :=
  match o with
  | [] => None
  | (k, r) :: rest => if String.eqb k key then Some r else lookup key rest
  end.

(** An instance of the class: the fields [error] and [_error] ([null] is
    [None]). *)
Record ErrorHandler : Type := mkHandler {
  error : ErrorObject;
  _error : option ErrorRecord
}.

(** The first statement of the constructor: which error ends up in
    [this.error]. *)
Definition wrap (error : value) : completion ErrorObject :=
  match error with
  | VError e => Normal e
  | _ =>
      if String.eqb (typeof error) "object" then
        m <- Get_message error ;;
        if ToBoolean m then new_Error m else new_Error error
      else new_Error error
  end.

(** [Object.keys(ERRORS).find(err => message.includes(err))], then
    [key ? ERRORS[key] : null]. *)
Definition classify_message (message : string) : option ErrorRecord :=
  match find (fun err => includes message err) (Object_keys ERRORS) with
  | Some key => if negb (String.eqb key "") then lookup key ERRORS else None
  | None => None
  end.

(** [constructor(error)]. *)
Definition constructor (error : value) : completion ErrorHandler :=
  e <- wrap error ;;
  Normal (mkHandler e (classify_message (error_message e))).

(** The getters. *)
Definition displayError (h : ErrorHandler) : bool :=
  match _error h with
  | Some r => rec_displayError r
  | None => true
  end.

Definition log (h : ErrorHandler) : bool :=
  match _error h with
  | Some r => rec_log r
  | None => true
  end.

Definition message (h : ErrorHandler) : string :=
  match _error h with
  | Some r => rec_message r
  | None => "Something went wrong."
  end.

(** [toErrorHandler(error)]. *)
Definition toErrorHandler (error : value) : completion ErrorHandler :=
  constructor error.

(** The message the table is searched in: that of [this.error]. *)
Definition normalized_message (error : value) : completion string :=
  e <- wrap error ;; Normal (error_message e).

(** What a caller reads off a handler. *)
Definition triple (h : ErrorHandler) : bool * bool * string :=
  (displayError h, log h, message h).

Definition record_triple (r : ErrorRecord) : bool * bool * string :=
  (rec_displayError r, rec_log r, rec_message r).

(** [handleError(error)]: what is alerted and what is written to the console
    error stream, in that order of decision. *)
Definition handleError (error : value)
  : completion (option string * option value) :=
  h <- toErrorHandler error ;;
  Normal (if displayError h then Some (message h) else None,
          if log h then Some error else None).

(** The table and the default record as the specification prints them
    (section 4.2). *)
Definition spec_table : list (string * (bool * bool * string)) :=
  [ ("You have no Metamask installed",
     (true, false, "You have no Metamask installed."));
    ("You are connected to the wrong network",
     (true, false, "You are connected to the wrong network."));
    ("User rejected the request",
     (true, false, "You rejected the connect request."));
    ("User denied transaction signature",
     (false, false,
      "MetaMask Tx Signature: User denied transaction signature."));
    ("Loketh: Organizer can not buy their own event",
     (true, false, "You can not buy a ticket from your own event."));
    ("Loketh: Participant already bought the ticket",
     (true, false, "You are already buy this ticket.")) ].

Definition spec_default : bool * bool * string :=
  (true, true, "Something went wrong.").

(** The entry a scan in declared order stops at. *)
Definition first_match (message : string) (table : list (string * ErrorRecord))
  : option (string * ErrorRecord) :=
  find (fun entry => includes message (fst entry)) table.

(** The seven triples a handler can present: those of the table in its
    order, then the default. *)
Definition fixed_triples : list (bool * bool * string) :=
  (map snd spec_table ++ [spec_default])%list.

(** The pattern occurs somewhere inside the message. *)
Definition Substring (pattern message : string) : Prop :=
  exists before after : string,
    message = (before ++ pattern ++ after)%string.

End Classifier.

(** ** Arrays: [arrayChunk] *)

Module Arrays.

Section Chunks.
Variable A : Type.

(** How [slice] reads a relative index: from the end when negative, and
    never outside the array. *)
Definition relative_index (len rel : Z) : Z :=
  if rel <? 0 then Z.max (len + rel) 0 else Z.min rel len.

(** [array.slice(start, end)]: a fresh array of the elements from [start] up
    to, not including, [end]. *)
Definition slice (array : list A) (start end_ : Z) : list A :=
  let len := Z.of_nat (List.length array) in
  let k := relative_index len start in
  let final := relative_index len end_ in
  firstn (Z.to_nat (final - k)) (skipn (Z.to_nat k) array).

(** The [for] loop of [arrayChunk]: the state is [i] and [result]; [j] is
    fixed when the loop starts.  Each unit of [fuel] pays for one test of
    [i < j]; [None] means the loop is still running when the fuel is spent. *)
Fixpoint arrayChunk_loop (fuel : nat) (array : list A) (chunk i j : Z)
  (result : list (list A)) : option (list (list A)) :=
  match fuel with
  | O => None
  | S fuel' =>
      if i <? j then
        arrayChunk_loop fuel' array chunk (i + chunk) j
          (result ++ [slice array i (i + chunk)])%list
      else Some result
  end.

(** [arrayChunk(array, chunk = 10)]. *)
Definition arrayChunk (fuel : nat) (array : list A) (chunk : Z)
  : option (list (list A)) :=
  arrayChunk_loop fuel array chunk 0 (Z.of_nat (List.length array)) [].

Definition arrayChunk_defaults (fuel : nat) (array : list A) (chunk : option Z)
  : option (list (list A)) :=
  arrayChunk fuel array (match chunk with Some c => c | None => 10 end).

End Chunks.

Arguments slice {A} array start end_.
Arguments arrayChunk_loop {A} fuel array chunk i j result.
Arguments arrayChunk {A} fuel array chunk.
Arguments arrayChunk_defaults {A} fuel array chunk.

End Arrays.

(** ** Text: [strLimit] and [getShortAddress] *)

Module Text.

(** [s.substr(start, length)]; [length] left out is [None].  A character of
    the model stands for one code unit of the JavaScript string. *)
Definition substr (s : string) (start : Z) (length : option Z) : string :=
  let size := Z.of_nat (String.length s) in
  let intStart :=
    if start <? 0 then Z.max (size + start) 0 else Z.min start size in
  let intLength :=
    match length with
    | None => size
    | Some l => Z.min (Z.max l 0) size
    end in
  let intEnd := Z.min (intStart + intLength) size in
  String.substring (Z.to_nat intStart) (Z.to_nat (intEnd - intStart)) s.

(** [strLimit(str, limit = 20)]. *)
Definition strLimit (str : string) (limit : Z) : string :=
  if Z.of_nat (String.length str) >? limit then
    (substr str 0 (Some limit) ++ "...")%string
  else str.

Definition strLimit_defaults (str : string) (limit : option Z) : string :=
  strLimit str (match limit with Some l => l | None => 20 end).

(** [getShortAddress(address)]: the template literal joins the two pieces
    around three dots. *)
Definition getShortAddress (address : string) : string :=
  (substr address 0 (Some 6) ++ "..." ++ substr address (-4) None)%string.

End Text.

(** ** The class [Event] *)

Module Events.
Import Text.

(** The tuple the contract call returns, its entries read by the keys ['0']
    to ['7']; every entry arrives as text (numbers in decimal). *)
Record EventTuple : Type := mkTuple {
  entry_0 : string;
  entry_1 : string;
  entry_2 : string;
  entry_3 : string;
  entry_4 : string;
  entry_5 : string;
  entry_6 : string;
  entry_7 : string
}.

(** An instance: the fields [event] and [id]. *)
Record Event : Type := mkEvent {
  event : EventTuple;
  id : Z
}.

(** [toEvent(event, id = 0)]. *)
Definition toEvent (event : EventTuple) (id : option Z) : Event :=
  mkEvent event (match id with Some i => i | None => 0 end).

(** The getters that stay inside this file. *)
Definition name (e : Event) : string := entry_0 (event e).
Definition shortName (e : Event) : string := strLimit (name e) 25.
Definition organizer (e : Event) : string := entry_1 (event e).
Definition shortOrganizer (e : Event) : string := getShortAddress (organizer e).
Definition startTime (e : Event) : string := entry_2 (event e).
Definition endTime (e : Event) : string := entry_3 (event e).
Definition price (e : Event) : string := entry_4 (event e).
Definition quota (e : Event) : string := entry_5 (event e).
Definition soldCounter (e : Event) : string := entry_6 (event e).
Definition moneyCollected (e : Event) : string := entry_7 (event e).

End Events.

(** ** Properties of the page window *)

Section PageWindowFacts.
Import Pagination.

Variables total page perPage : Z.
Variable zeroBased : bool.

Local Notation w := (descPagination total page perPage zeroBased).

(** The comparison that clamps [minId] is a maximum. *)
Lemma minId_is_max :
  minId w = Z.max (maxId w - perPage) (floor zeroBased).
Proof.
  unfold descPagination, floor; cbn [minId maxId].
  destruct zeroBased;
    match goal with |- context [?a <? ?b] => destruct (Z.ltb_spec a b) end;
    lia.
Qed.

Lemma maxId_eq :
  maxId w = effectiveTotal total zeroBased - (page - 1) * perPage.
Proof. unfold descPagination, effectiveTotal; now destruct zeroBased. Qed.

Lemma hasPrev_iff :
  hasPrev w = true <-> maxId w < effectiveTotal total zeroBased.
Proof.
  unfold descPagination, effectiveTotal; cbn [hasPrev maxId].
  destruct zeroBased; apply Z.ltb_lt.
Qed.

Lemma hasNext_iff :
  hasNext w = true <-> minId w > floor zeroBased.
Proof.
  unfold descPagination, floor; cbn [hasNext minId].
  destruct zeroBased; rewrite Z.gtb_ltb, Z.ltb_lt; lia.
Qed.

End PageWindowFacts.

Import Pagination.

(** In exact integer arithmetic, for all integers [total], [page],
    [perPage] and either mode, the window is the one the specification
    describes:
    [maxId] is the effective total less [(page - 1) * perPage], [minId] is the
    larger of [maxId - perPage] and the floor, [hasPrev] says that [maxId] is
    below the effective total and [hasNext] that [minId] is above the floor. *)
Theorem descPagination_refines_spec_window :
  forall (total page perPage : Z) (zeroBased : bool),
    descPagination total page perPage zeroBased
    = spec_window total page perPage zeroBased.
Proof.
  intros total page perPage zeroBased.
  pose proof (minId_is_max total page perPage zeroBased) as Hmin.
  pose proof (maxId_eq total page perPage zeroBased) as Hmax.
  pose proof (hasPrev_iff total page perPage zeroBased) as Hprev.
  pose proof (hasNext_iff total page perPage zeroBased) as Hnext.
  destruct (descPagination total page perPage zeroBased) as [hi lo prev next].
  cbn [maxId minId hasPrev hasNext] in *.
  unfold spec_window. subst hi.
  f_equal.
  - exact Hmin.
  - destruct (Z_lt_dec _ _) as [Hlt | Hge].
    + now apply Hprev.
    + destruct prev; [exfalso; apply Hge, Hprev; reflexivity | reflexivity].
  - rewrite <- Hmin.
    destruct (Z_gt_dec _ _) as [Hgt | Hle].
    + now apply Hnext.
    + destruct next; [exfalso; apply Hle, Hnext; reflexivity | reflexivity].
Qed.

(** C4, as stated, fails: page 4 of 25 items, ten a page, starts below the
    floor, and its [maxId] is under its [minId]. *)
Lemma maxId_below_minId_past_the_end :
  25 >= 0 /\ 4 >= 1 /\ 10 >= 1 /\
  ~ (maxId (descPagination 25 4 10 true) >= minId (descPagination 25 4 10 true)).
Proof. repeat split; try lia. cbn. lia. Qed.

(** In exact integer arithmetic: for [total >= 0], [page >= 1],
    [perPage >= 1] and either mode, the window has [maxId >= minId] exactly when the page starts inside
    the collection, that is when [(page - 1) * perPage <= total]. *)
Theorem maxId_ge_minId_iff :
  forall (total page perPage : Z) (zeroBased : bool),
    total >= 0 -> page >= 1 -> perPage >= 1 ->
    (maxId (descPagination total page perPage zeroBased)
       >= minId (descPagination total page perPage zeroBased)
     <-> (page - 1) * perPage <= total).
Proof.
  intros total page perPage zeroBased _ _ Hper.
  rewrite minId_is_max, maxId_eq.
  unfold effectiveTotal, floor; destruct zeroBased; lia.
Qed.

(** C6.  For [total >= 0], [page >= 1], [perPage >= 1] and either mode,
    [hasNext] is false exactly when [minId] equals the floor ([-1] when
    zero-based, [0] otherwise). *)
Theorem hasNext_false_iff_minId_floor :
  forall (total page perPage : Z) (zeroBased : bool),
    total >= 0 -> page >= 1 -> perPage >= 1 ->
    (hasNext (descPagination total page perPage zeroBased) = false
     <-> minId (descPagination total page perPage zeroBased)
         = (if zeroBased then -1 else 0)).
Proof.
  intros total page perPage zeroBased _ _ _.
  pose proof (hasNext_iff total page perPage zeroBased) as Hnext.
  pose proof (minId_is_max total page perPage zeroBased) as Hmin.
  unfold floor in *.
  destruct (hasNext (descPagination total page perPage zeroBased)).
  - split; [discriminate |].
    intros Heq. assert (true = true) as Ht by reflexivity.
    apply Hnext in Ht. lia.
  - split; [intros _ | reflexivity].
    assert (~ minId (descPagination total page perPage zeroBased)
              > (if zeroBased then -1 else 0)) as Hle
      by (intros Hgt; apply Hnext in Hgt; discriminate).
    lia.
Qed.

Lemma hasNext_false_iff_minId_floor_witness :
  hasNext (descPagination 25 3 10 true) = false
  <-> minId (descPagination 25 3 10 true) = -1.
Proof.
  apply (hasNext_false_iff_minId_floor 25 3 10 true); lia.
Defined.

(** In exact integer arithmetic: for every [page >= 1], going to the next
    page lowers [maxId] by
    exactly [perPage], the other arguments held fixed. *)
Theorem maxId_next_page :
  forall (total perPage : Z) (zeroBased : bool) (page : Z),
    page >= 1 ->
    maxId (descPagination total (page + 1) perPage zeroBased)
    = maxId (descPagination total page perPage zeroBased) - perPage.
Proof.
  intros total perPage zeroBased page _.
  rewrite !maxId_eq. lia.
Qed.

(** In exact integer arithmetic: for all integers [total], [page],
    [perPage] and either mode,
    [minId] is at least the floor and the window spans at most [perPage]
    indices: [maxId - minId <= perPage]. *)
Theorem minId_ge_floor_and_span :
  forall (total page perPage : Z) (zeroBased : bool),
    minId (descPagination total page perPage zeroBased)
      >= (if zeroBased then -1 else 0)
    /\ maxId (descPagination total page perPage zeroBased)
       - minId (descPagination total page perPage zeroBased) <= perPage.
Proof.
  intros total page perPage zeroBased.
  rewrite minId_is_max. unfold floor. destruct zeroBased; lia.
Qed.

(** C10.  For every [perPage >= 1], the first page of an empty zero-based
    collection is the empty window [-1, -1] with both flags false. *)
Theorem descPagination_empty_collection :
  forall perPage : Z,
    perPage >= 1 ->
    descPagination 0 1 perPage true
    = {| maxId := -1; minId := -1; hasPrev := false; hasNext := false |}.
Proof.
  intros perPage Hper.
  assert (0 - 1 - (1 - 1) * perPage = -1) as Hmax by lia.
  assert ((-1 - perPage <? -1) = true) as Hclamp by (apply Z.ltb_lt; lia).
  cbv beta iota zeta delta [descPagination].
  rewrite Hmax, Hclamp. reflexivity.
Qed.

Lemma descPagination_empty_collection_witness :
  descPagination 0 1 10 true
  = {| maxId := -1; minId := -1; hasPrev := false; hasNext := false |}.
Proof.
  apply (descPagination_empty_collection 10). lia.
Defined.

(** ** Substring search *)

Section Search.
Import Js Classifier.

Lemma startsWith_iff (search s : string) :
  startsWith s search = true <-> exists after, s = (search ++ after)%string.
Proof.
  revert s; induction search as [| c search IH]; intros s; cbn.
  - split; [intros _; now exists s | reflexivity].
  - destruct s as [| d s].
    + split; [discriminate | intros [after H]; discriminate].
    + rewrite andb_true_iff, Ascii.eqb_eq, IH. split.
      * intros [-> [after ->]]. now exists after.
      * intros [after H]. injection H as -> ->. split; [reflexivity | now exists after].
Qed.

Lemma includes_iff (s search : string) :
  includes s search = true <-> Substring search s.
Proof.
  unfold Substring. induction s as [| d s IH]; cbn [includes].
  - rewrite orb_false_r, startsWith_iff. split.
    + intros [after H]. now exists EmptyString, after.
    + intros [[| b before] [after H]]; [now exists after | discriminate].
  - rewrite orb_true_iff, startsWith_iff, IH. split.
    + intros [[after H] | [before [after H]]].
      * now exists EmptyString, after.
      * exists (String d before), after. cbn. now rewrite H.
    + intros [[| b before] [after H]].
      * left. now exists after.
      * right. cbn in H. injection H as _ H. now exists before, after.
Qed.

Lemma includes_false_iff (s search : string) :
  includes s search = false <-> ~ Substring search s.
Proof.
  rewrite <- includes_iff. destruct (includes s search); split; congruence.
Qed.

End Search.

(** ** The scan of the table *)

Section Scan.
Import Js Classifier.

(** [find] stops at the first element that passes. *)
Lemma find_splits {A : Type} (f : A -> bool) (l : list A) (x : A) :
  find f l = Some x ->
  exists pre post,
    l = (pre ++ x :: post)%list /\ f x = true /\
    forall y, In y pre -> f y = false.
Proof.
  induction l as [| a l IH]; cbn; [discriminate |].
  destruct (f a) eqn:Hfa.
  - intros [= ->]. exists [], l. repeat split; [assumption | intros y []].
  - intros H. destruct (IH H) as (pre & post & -> & Hx & Hpre).
    exists (a :: pre), post. repeat split; [assumption |].
    intros y [<- | Hy]; [assumption | now apply Hpre].
Qed.

(** Looking the found key up again gives the entry the scan stopped at,
    whatever the table, provided no key is the empty string. *)
Lemma key_then_lookup (message : string) (table : list (string * ErrorRecord)) :
  (forall entry, In entry table -> fst entry <> EmptyString) ->
  match find (fun err => includes message err) (Object_keys table) with
  | Some key =>
      if negb (String.eqb key EmptyString) then lookup key table else None
  | None => None
  end = option_map snd (first_match message table).
Proof.
  unfold first_match, Object_keys.
  induction table as [| [k r] table IH]; intros Hkeys; [reflexivity |].
  cbn [map find fst lookup].
  destruct (includes message k) eqn:Hk.
  - assert (String.eqb k EmptyString = false) as ->
        by (apply String.eqb_neq, (Hkeys (k, r)); now left).
    cbn. now rewrite String.eqb_refl.
  - rewrite <- IH by (intros entry Hin; apply Hkeys; now right).
    destruct (find _ (map fst table)) as [key |] eqn:Hfind; [| reflexivity].
    destruct (negb (String.eqb key EmptyString)); [| reflexivity].
    destruct (String.eqb_spec k key) as [-> | _]; [| reflexivity].
    apply find_some in Hfind. destruct Hfind as [_ Hkey]. congruence.
Qed.

Lemma ERRORS_keys_nonempty :
  forall entry, In entry ERRORS -> fst entry <> EmptyString.
Proof.
  intros entry Hin. cbn in Hin.
  repeat (destruct Hin as [<- | Hin]; [discriminate |]). destruct Hin.
Qed.

Lemma classify_message_first_match (message : string) :
  classify_message message = option_map snd (first_match message ERRORS).
Proof. apply key_then_lookup, ERRORS_keys_nonempty. Qed.

(** With a pattern present, the scan stops at the first entry whose pattern
    occurs in the message. *)
Lemma classify_message_matched (message : string) :
  (exists entry, In entry ERRORS /\ Substring (fst entry) message) ->
  exists earlier entry later,
    ERRORS = (earlier ++ entry :: later)%list /\
    Substring (fst entry) message /\
    (forall e, In e earlier -> ~ Substring (fst e) message) /\
    classify_message message = Some (snd entry).
Proof.
  intros (entry & Hin & Hsub).
  rewrite classify_message_first_match. unfold first_match.
  destruct (find _ ERRORS) as [found |] eqn:Hfind.
  - destruct (find_splits _ _ _ Hfind) as (pre & post & Hsplit & Hfound & Hpre).
    exists pre, found, post. repeat split.
    + exact Hsplit.
    + now apply includes_iff.
    + intros e He. apply includes_false_iff. now apply Hpre.
  - apply (find_none _ _ Hfind) in Hin.
    apply includes_false_iff in Hin. contradiction.
Qed.

(** With no pattern present, the scan finds nothing, and conversely. *)
Lemma classify_message_none_iff (message : string) :
  classify_message message = None <->
  forall entry, In entry ERRORS -> ~ Substring (fst entry) message.
Proof.
  rewrite classify_message_first_match. unfold first_match. split.
  - intros Hnone entry Hin.
    destruct (find _ ERRORS) eqn:Hfind; [discriminate |].
    apply includes_false_iff. exact (find_none _ _ Hfind entry Hin).
  - intros Hnot. destruct (find _ ERRORS) as [found |] eqn:Hfind; [| reflexivity].
    apply find_some in Hfind. destruct Hfind as [Hin Hinc].
    apply includes_iff in Hinc. now apply Hnot in Hin.
Qed.

(** Whatever the scan returns is an entry of the table. *)
Lemma classify_message_in_table (message : string) (r : ErrorRecord) :
  classify_message message = Some r ->
  exists pattern, In (pattern, r) ERRORS /\ Substring pattern message.
Proof.
  rewrite classify_message_first_match. unfold first_match.
  destruct (find _ ERRORS) as [[k r'] |] eqn:Hfind; [| discriminate].
  intros [= <-]. apply find_some in Hfind. destruct Hfind as [Hin Hinc].
  exists k. split; [exact Hin | now apply includes_iff].
Qed.

(** Classification completes exactly when the wrapping does, and then the
    table is searched in the wrapped error's message. *)
Lemma toErrorHandler_of_normalized (input : value) (msg : string) :
  normalized_message input = Normal msg ->
  exists e,
    error_message e = msg /\
    toErrorHandler input = Normal (mkHandler e (classify_message msg)).
Proof.
  unfold normalized_message, toErrorHandler, constructor.
  destruct (wrap input) as [e | x]; cbn; [| discriminate].
  intros [= <-]. now exists e.
Qed.

Lemma normalized_of_toErrorHandler (input : value) (h : ErrorHandler) :
  toErrorHandler input = Normal h ->
  normalized_message input = Normal (error_message (error h)) /\
  _error h = classify_message (error_message (error h)).
Proof.
  unfold normalized_message, toErrorHandler, constructor.
  destruct (wrap input) as [e | x]; cbn; [| discriminate].
  intros [= <-]. split; reflexivity.
Qed.

End Scan.

(** ** Properties of the classification *)

Section Classification.
Import Js Classifier.

Lemma ERRORS_is_spec_table :
  map (fun entry => (fst entry, record_triple (snd entry))) ERRORS = spec_table.
Proof. reflexivity. Qed.

Lemma ERRORS_never_log :
  forall entry, In entry ERRORS -> rec_log (snd entry) = false.
Proof.
  intros entry Hin. cbn in Hin.
  repeat (destruct Hin as [<- | Hin]; [reflexivity |]). destruct Hin.
Qed.

Lemma ERRORS_messages_nonempty :
  forall entry, In entry ERRORS -> rec_message (snd entry) <> EmptyString.
Proof.
  intros entry Hin. cbn in Hin.
  repeat (destruct Hin as [<- | Hin]; [discriminate |]). destruct Hin.
Qed.

Lemma ERRORS_triples_fixed :
  forall entry, In entry ERRORS -> In (record_triple (snd entry)) fixed_triples.
Proof.
  intros entry Hin. cbn in Hin.
  repeat (destruct Hin as [<- | Hin]; [cbn; tauto |]). destruct Hin.
Qed.

(** The spec's scenarios of section 8. *)
Example classify_denied_signature :
  exists h,
    toErrorHandler
      (VError (mkError "Error" "User denied transaction signature by account"))
    = Normal h /\
    triple h
    = (false, false, "MetaMask Tx Signature: User denied transaction signature.").
Proof. eexists; split; reflexivity. Qed.

Example classify_revert_text :
  exists h,
    toErrorHandler
      (VString "revert Loketh: Participant already bought the ticket")
    = Normal h /\
    triple h = (true, false, "You are already buy this ticket.").
Proof. eexists; split; reflexivity. Qed.

Example classify_timeout_object :
  exists h,
    toErrorHandler (VObject [("message", VString "timeout")]) = Normal h /\
    triple h = (true, true, "Something went wrong.").
Proof. eexists; split; reflexivity. Qed.

(** Two patterns at once: the table's order decides, not the message's. *)
Example classify_two_patterns :
  exists h,
    toErrorHandler
      (VString "User rejected the request; You are connected to the wrong network")
    = Normal h /\
    triple h = (true, false, "You are connected to the wrong network.").
Proof. eexists; split; reflexivity. Qed.

(** Where the constructor completes: on every native error, and on every
    primitive other than a symbol. *)
Lemma toErrorHandler_completes_on_errors_and_text (input : value) :
  match input with
  | VError _ | VString _ | VNumber _ | VBoolean _ | VUndefined => True
  | _ => False
  end ->
  exists h, toErrorHandler input = Normal h.
Proof.
  destruct input; intros H; try contradiction; eexists; reflexivity.
Qed.

(** An object that carries a non-empty text as its [message] is classified
    by that text. *)
Lemma toErrorHandler_message_carrier (props : list (string * value)) (s : string) :
  own_property "message" props = Some (VString s) ->
  s <> EmptyString ->
  toErrorHandler (VObject props)
  = Normal (mkHandler (mkError "Error" s) (classify_message s)).
Proof.
  intros Hget Hs. unfold toErrorHandler, constructor, wrap.
  cbn [typeof String.eqb Get_message]. cbn - [own_property classify_message].
  rewrite Hget. cbn - [classify_message].
  apply String.eqb_neq in Hs. rewrite Hs. reflexivity.
Qed.

(** Each of the seven triples is presented on some input. *)
Lemma fixed_triples_attained :
  forall t, In t fixed_triples ->
  exists input h, toErrorHandler input = Normal h /\ triple h = t.
Proof.
  intros t Hin. cbn in Hin.
  destruct Hin as [<- | Hin];
    [exists (VString "You have no Metamask installed");
     eexists; split; reflexivity |].
  destruct Hin as [<- | Hin];
    [exists (VString "You are connected to the wrong network");
     eexists; split; reflexivity |].
  destruct Hin as [<- | Hin];
    [exists (VString "User rejected the request");
     eexists; split; reflexivity |].
  destruct Hin as [<- | Hin];
    [exists (VString "User denied transaction signature");
     eexists; split; reflexivity |].
  destruct Hin as [<- | Hin];
    [exists (VString "Loketh: Organizer can not buy their own event");
     eexists; split; reflexivity |].
  destruct Hin as [<- | Hin];
    [exists (VString "Loketh: Participant already bought the ticket");
     eexists; split; reflexivity |].
  destruct Hin as [<- | []].
  exists VUndefined. eexists; split; reflexivity.
Qed.

Lemma fixed_triples_distinct : NoDup fixed_triples.
Proof.
  cbn. repeat constructor; cbn; intros H;
    repeat (destruct H as [H | H]; [discriminate H |]); exact H.
Qed.

End Classification.

Import Js Classifier.

(** C2.  When the normalized message contains at least one of the six
    patterns, the handler presents exactly the triple of the first entry, in
    the order the table is declared, whose pattern occurs anywhere in the
    message as a substring; and the six entries, in that order, are those of
    the specification's table. *)
Theorem first_match_in_declared_order :
  forall (input : value) (msg : string),
    normalized_message input = Normal msg ->
    (exists entry, In entry ERRORS /\ Substring (fst entry) msg) ->
    map (fun entry => (fst entry, record_triple (snd entry))) ERRORS
      = spec_table /\
    exists earlier entry later h,
      ERRORS = (earlier ++ entry :: later)%list /\
      Substring (fst entry) msg /\
      (forall e, In e earlier -> ~ Substring (fst e) msg) /\
      toErrorHandler input = Normal h /\
      triple h = record_triple (snd entry).
Proof.
  intros input msg Hnorm Hsome.
  split; [exact ERRORS_is_spec_table |].
  destruct (toErrorHandler_of_normalized input msg Hnorm) as (e & _ & Hh).
  destruct (classify_message_matched msg Hsome)
    as (earlier & entry & later & Hsplit & Hsub & Hfirst & Hcls).
  exists earlier, entry, later, (mkHandler e (classify_message msg)).
  repeat split; try assumption.
  rewrite Hcls. reflexivity.
Qed.

Lemma first_match_in_declared_order_witness :
  exists earlier entry later h,
    ERRORS = (earlier ++ entry :: later)%list /\
    Substring (fst entry)
      "User rejected the request; You are connected to the wrong network" /\
    (forall e, In e earlier ->
       ~ Substring (fst e)
           "User rejected the request; You are connected to the wrong network") /\
    toErrorHandler
      (VString "User rejected the request; You are connected to the wrong network")
      = Normal h /\
    triple h = record_triple (snd entry).
Proof.
  apply (first_match_in_declared_order
           (VString "User rejected the request; You are connected to the wrong network")
           "User rejected the request; You are connected to the wrong network").
  - reflexivity.
  - exists ("User rejected the request",
            mkRecord true false "You rejected the connect request.").
    split.
    + cbn. tauto.
    + exists EmptyString, "; You are connected to the wrong network".
      reflexivity.
Defined.

(** C3.  The constructor does throw: [typeof null] is ["object"], so [null]
    takes the second branch, and reading [null.message] raises a
    [TypeError]; [handleError(null)] fails with it. *)
Theorem toErrorHandler_null_throws :
  instanceof_Error VNull = false /\
  typeof VNull = "object" /\
  toErrorHandler VNull = Throw TypeError /\
  handleError VNull = Throw TypeError.
Proof. repeat split. Qed.

(** C5.  When the normalized message contains none of the six patterns, the
    handler presents the default record (shown, logged, "Something went
    wrong."); and whatever the message, the [log] flag is true exactly when
    no pattern of the table occurs in it, every entry of the table having
    [log] false. *)
Theorem unmatched_is_default_and_logged :
  forall (input : value) (msg : string),
    normalized_message input = Normal msg ->
    exists h,
      toErrorHandler input = Normal h /\
      ((forall entry, In entry ERRORS -> ~ Substring (fst entry) msg) ->
       triple h = (true, true, "Something went wrong.")) /\
      (log h = true <->
       forall entry, In entry ERRORS -> ~ Substring (fst entry) msg) /\
      (forall entry, In entry ERRORS -> rec_log (snd entry) = false).
Proof.
  intros input msg Hnorm.
  destruct (toErrorHandler_of_normalized input msg Hnorm) as (e & _ & Hh).
  exists (mkHandler e (classify_message msg)).
  split; [exact Hh |].
  pose proof (classify_message_none_iff msg) as Hnone.
  unfold triple, displayError, log, message; cbn [_error].
  destruct (classify_message msg) as [r |] eqn:Hcls.
  - destruct (classify_message_in_table _ _ Hcls) as (pattern & Hin & Hsub).
    pose proof (ERRORS_never_log _ Hin) as Hlog. cbn [snd] in Hlog.
    split; [| split; [split |]].
    + intros Hnot. exfalso. exact (Hnot _ Hin Hsub).
    + rewrite Hlog. discriminate.
    + intros Hnot. exfalso. exact (Hnot _ Hin Hsub).
    + exact ERRORS_never_log.
  - split; [| split; [split |]].
    + reflexivity.
    + intros _. now apply Hnone.
    + reflexivity.
    + exact ERRORS_never_log.
Qed.

Lemma unmatched_is_default_and_logged_witness :
  exists h,
    toErrorHandler (VObject [("message", VString "timeout")]) = Normal h /\
    ((forall entry, In entry ERRORS -> ~ Substring (fst entry) "timeout") ->
     triple h = (true, true, "Something went wrong.")) /\
    (log h = true <->
     forall entry, In entry ERRORS -> ~ Substring (fst entry) "timeout") /\
    (forall entry, In entry ERRORS -> rec_log (snd entry) = false).
Proof.
  apply (unmatched_is_default_and_logged
           (VObject [("message", VString "timeout")]) "timeout").
  reflexivity.
Defined.

(** C8.  Whenever classification completes, the triple presented is one of
    seven fixed and distinct constants, the six of the table or the default;
    so the message is never empty, and a handler that is not the default one
    has [log] false. *)
Theorem classification_yields_fixed_triple :
  forall (input : value) (h : ErrorHandler),
    toErrorHandler input = Normal h ->
    In (triple h) fixed_triples /\
    List.length fixed_triples = 7%nat /\
    NoDup fixed_triples /\
    message h <> EmptyString /\
    (triple h <> spec_default -> log h = false) /\
    (_error h <> None -> log h = false).
Proof.
  intros input h Hh.
  destruct (normalized_of_toErrorHandler input h Hh) as [_ Hcls].
  split; [| split; [reflexivity | split; [exact fixed_triples_distinct |]]].
  - unfold triple, displayError, log, message.
    destruct (_error h) as [r |].
    + symmetry in Hcls.
      destruct (classify_message_in_table _ _ Hcls) as (pattern & Hin & _).
      exact (ERRORS_triples_fixed _ Hin).
    + cbn. tauto.
  - unfold triple, displayError, log, message.
    destruct (_error h) as [r |].
    + symmetry in Hcls.
      destruct (classify_message_in_table _ _ Hcls) as (pattern & Hin & _).
      pose proof (ERRORS_never_log _ Hin) as Hlog.
      pose proof (ERRORS_messages_nonempty _ Hin) as Hmsg.
      cbn [snd] in Hlog, Hmsg. repeat split; auto.
    + repeat split.
      * discriminate.
      * intros Hne. exfalso. apply Hne. reflexivity.
      * intros Hne. exfalso. apply Hne. reflexivity.
Qed.

Lemma classification_yields_fixed_triple_witness :
  In (triple (mkHandler (mkError "Error" "timeout") None)) fixed_triples /\
  List.length fixed_triples = 7%nat /\
  NoDup fixed_triples /\
  message (mkHandler (mkError "Error" "timeout") None) <> EmptyString /\
  (triple (mkHandler (mkError "Error" "timeout") None) <> spec_default ->
   log (mkHandler (mkError "Error" "timeout") None) = false) /\
  (_error (mkHandler (mkError "Error" "timeout") None) <> None ->
   log (mkHandler (mkError "Error" "timeout") None) = false).
Proof.
  apply (classification_yields_fixed_triple (VString "timeout")).
  reflexivity.
Defined.

(** ** More on the page window, in exact integer arithmetic *)

(** With [perPage >= 1], a page has a previous one exactly when it is
    not the first: [hasPrev] is true iff [page > 1]. *)
Theorem hasPrev_iff_after_first_page :
  forall (total page perPage : Z) (zeroBased : bool),
    perPage >= 1 ->
    (hasPrev (descPagination total page perPage zeroBased) = true
     <-> page > 1).
Proof.
  intros total page perPage zeroBased Hper.
  rewrite hasPrev_iff, maxId_eq. nia.
Qed.

(** For all integers, [hasNext] is true exactly when the pages up to
    and including this one do not reach the total:
    [page * perPage < total], in either mode. *)
Theorem hasNext_iff_items_left :
  forall (total page perPage : Z) (zeroBased : bool),
    hasNext (descPagination total page perPage zeroBased) = true
    <-> page * perPage < total.
Proof.
  intros total page perPage zeroBased.
  rewrite hasNext_iff, minId_is_max, maxId_eq.
  unfold effectiveTotal, floor. destruct zeroBased; lia.
Qed.

(** Consecutive windows adjoin: the [minId] of a page is the [maxId] of
    the next page exactly when this page is full, [page * perPage <= total];
    otherwise [minId] was clamped to the floor. *)
Theorem minId_meets_next_maxId :
  forall (total page perPage : Z) (zeroBased : bool),
    minId (descPagination total page perPage zeroBased)
      = maxId (descPagination total (page + 1) perPage zeroBased)
    <-> page * perPage <= total.
Proof.
  intros total page perPage zeroBased.
  rewrite minId_is_max, !maxId_eq.
  unfold effectiveTotal, floor. destruct zeroBased; lia.
Qed.

(** For all integers, the window holds [maxId - minId] indices, and that
    is the smaller of [perPage] and what is left of the total from this page
    on, [total - (page - 1) * perPage]. *)
Theorem window_size :
  forall (total page perPage : Z) (zeroBased : bool),
    maxId (descPagination total page perPage zeroBased)
      - minId (descPagination total page perPage zeroBased)
    = Z.min perPage (total - (page - 1) * perPage).
Proof.
  intros total page perPage zeroBased.
  rewrite minId_is_max, maxId_eq.
  unfold effectiveTotal, floor. destruct zeroBased; lia.
Qed.

(** The two modes differ by a shift of one: the one-based window has
    both bounds one higher than the zero-based window and the same flags. *)
Theorem one_based_is_zero_based_shifted :
  forall (total page perPage : Z),
    descPagination total page perPage false
    = {| maxId := maxId (descPagination total page perPage true) + 1;
         minId := minId (descPagination total page perPage true) + 1;
         hasPrev := hasPrev (descPagination total page perPage true);
         hasNext := hasNext (descPagination total page perPage true) |}.
Proof.
  intros total page perPage.
  pose proof (minId_is_max total page perPage true) as Hz.
  pose proof (minId_is_max total page perPage false) as Ho.
  pose proof (maxId_eq total page perPage true) as Mz.
  pose proof (maxId_eq total page perPage false) as Mo.
  pose proof (hasPrev_iff total page perPage true) as Pz.
  pose proof (hasPrev_iff total page perPage false) as Po.
  pose proof (hasNext_iff total page perPage true) as Nz.
  pose proof (hasNext_iff total page perPage false) as No.
  destruct (descPagination total page perPage true) as [hz lz pz nz].
  destruct (descPagination total page perPage false) as [ho lo po no].
  cbn [maxId minId hasPrev hasNext] in *.
  unfold effectiveTotal, floor in *.
  assert (po = pz) as ->.
  { apply eq_true_iff_eq. rewrite Po, Pz. lia. }
  assert (no = nz) as ->.
  { apply eq_true_iff_eq. rewrite No, Nz. lia. }
  f_equal; lia.
Qed.

(** With [perPage >= 1], the windows partition the collection: every
    valid index ([0 .. total - 1] zero-based, [1 .. total] one-based) lies in
    the window [minId < index <= maxId] of one page [page >= 1], and of no
    other page. *)
Theorem every_index_on_exactly_one_page :
  forall (total perPage index : Z) (zeroBased : bool),
    perPage >= 1 ->
    (if zeroBased then 0 else 1) <= index
      <= (if zeroBased then total - 1 else total) ->
    exists page,
      page >= 1 /\
      minId (descPagination total page perPage zeroBased) < index
        <= maxId (descPagination total page perPage zeroBased) /\
      forall page',
        minId (descPagination total page' perPage zeroBased) < index
          <= maxId (descPagination total page' perPage zeroBased) ->
        page' = page.
Proof.
  intros total perPage index zeroBased Hper Hidx.
  set (top := effectiveTotal total zeroBased).
  assert (0 <= top - index) as Hd
    by (subst top; unfold effectiveTotal; destruct zeroBased; lia).
  assert (floor zeroBased < index) as Hfl
    by (unfold floor; destruct zeroBased; lia).
  pose proof (Z.div_mod (top - index) perPage ltac:(lia)) as Hdm.
  pose proof (Z.mod_pos_bound (top - index) perPage ltac:(lia)) as Hr.
  pose proof (Z.div_pos (top - index) perPage Hd ltac:(lia)) as Hq.
  set (q := (top - index) / perPage) in *.
  set (r := (top - index) mod perPage) in *.
  exists (q + 1). split; [lia | split].
  - rewrite minId_is_max, maxId_eq. fold top.
    replace ((q + 1 - 1) * perPage) with (perPage * q) by lia. lia.
  - intros page'. rewrite minId_is_max, maxId_eq. fold top.
    intros [Hlo Hhi].
    assert ((page' - 1) * perPage <= top - index) as H1 by lia.
    assert (top - index < (page' - 1) * perPage + perPage) as H2 by lia.
    assert (page' - 1 = q) by nia. lia.
Qed.

(** ** The page window in the arithmetic of the code *)

Section DoubleFacts.
Import Double.

(** Up to [2 ^ 53] in magnitude nothing is rounded. *)
Lemma round_magnitude_exact (a : Z) :
  0 <= a <= 2 ^ 53 -> round_magnitude a = a.
Proof.
  intros Ha. unfold round_magnitude, precision.
  destruct (Z.ltb_spec a (2 ^ 53)) as [Hlt | Hge]; [reflexivity |].
  assert (a = 2 ^ 53) as -> by lia. reflexivity.
Qed.

Lemma round_exact (z : Z) :
  Z.abs z <= 2 ^ 53 -> round z = Finite z.
Proof.
  intros Hz. unfold round.
  rewrite round_magnitude_exact by lia. unfold emax.
  destruct (Z.ltb_spec (Z.abs z) (2 ^ 1024)) as [_ | Hbig].
  - f_equal. destruct z; reflexivity.
  - assert (2 ^ 53 < 2 ^ 1024) by (apply Z.pow_lt_mono_r; lia). lia.
Qed.

Lemma sub_exact (a b : Z) :
  Z.abs (a - b) <= 2 ^ 53 -> sub (Finite a) (Finite b) = Finite (a - b).
Proof. intros H. cbn [sub]. now apply round_exact. Qed.

Lemma mul_exact (a b : Z) :
  Z.abs (a * b) <= 2 ^ 53 -> mul (Finite a) (Finite b) = Finite (a * b).
Proof. intros H. cbn [mul]. now apply round_exact. Qed.

(** In range, the code computes the window of exact integer arithmetic. *)
Lemma descPagination_in_range (total page perPage : Z) (zeroBased : bool) :
  in_range total page perPage zeroBased ->
  Double.descPagination (Finite total) (Finite page) (Finite perPage) zeroBased
  = of_integers (Pagination.descPagination total page perPage zeroBased).
Proof.
  unfold in_range. intros (Ht & Hp & Hn & Htop & Hp1 & Hprod & Hhi & Hlo).
  unfold Double.descPagination, Pagination.descPagination, of_integers.
  cbn [Pagination.maxId Pagination.minId Pagination.hasPrev Pagination.hasNext].
  destruct zeroBased.
  - rewrite (sub_exact total 1) by exact Htop.
    rewrite (sub_exact page 1) by exact Hp1.
    rewrite mul_exact by exact Hprod.
    rewrite (sub_exact (total - 1)) by exact Hhi.
    rewrite sub_exact by exact Hlo.
    unfold gt. cbn [lt]. rewrite Z.gtb_ltb.
    destruct (total - 1 - (page - 1) * perPage - perPage <? -1); reflexivity.
  - rewrite (sub_exact page 1) by exact Hp1.
    rewrite mul_exact by exact Hprod.
    rewrite (sub_exact total) by exact Hhi.
    rewrite sub_exact by exact Hlo.
    unfold gt. cbn [lt]. rewrite Z.gtb_ltb.
    destruct (total - (page - 1) * perPage - perPage <? 0); reflexivity.
Qed.

(** Arguments up to [2 ^ 51] whose product stays up to [2 ^ 51] are in
    range. *)
Lemma in_range_small (total page perPage : Z) (zeroBased : bool) :
  Z.abs total <= 2 ^ 51 -> Z.abs page <= 2 ^ 51 ->
  Z.abs perPage <= 2 ^ 51 -> Z.abs ((page - 1) * perPage) <= 2 ^ 51 ->
  in_range total page perPage zeroBased.
Proof.
  intros Ht Hp Hn Hprod. unfold in_range.
  change (2 ^ 51) with 2251799813685248 in *.
  change (2 ^ 53) with 9007199254740992.
  destruct zeroBased; cbv zeta; lia.
Qed.

(** From [2 ^ 53] on: what is kept, what is dropped, and the two ways the
    rounding can go. *)
Lemma round_magnitude_cases (a : Z) :
  2 ^ 53 <= a ->
  exists e q r,
    e = Z.log2 a - 52 /\ 1 <= e /\
    a = q * 2 ^ e + r /\ 0 <= r < 2 ^ e /\ 2 ^ 52 <= q < 2 ^ 53 /\
    (round_magnitude a = q * 2 ^ e /\ 2 * r <= 2 ^ e \/
     round_magnitude a = (q + 1) * 2 ^ e /\ 2 ^ e <= 2 * r).
Proof.
  intros Ha. assert (0 < a) as Hpos by (assert (0 < 2 ^ 53) by lia; lia).
  assert (53 <= Z.log2 a) as Hlog by (apply Z.log2_le_pow2; assumption).
  unfold round_magnitude, precision.
  destruct (Z.ltb_spec a (2 ^ 53)) as [Hlt | _]; [lia |].
  replace (53 - 1) with 52 by reflexivity.
  set (e := Z.log2 a - 52). assert (1 <= e) as He by lia.
  assert (0 < 2 ^ e) as Hpow by (apply Z.pow_pos_nonneg; lia).
  assert (2 ^ e = 2 * 2 ^ (e - 1)) as Hhalf
    by (rewrite <- Z.pow_succ_r by lia; f_equal; lia).
  pose proof (Z.div_mod a (2 ^ e) ltac:(lia)) as Hdm.
  pose proof (Z.mod_pos_bound a (2 ^ e) Hpow) as Hr.
  destruct (Z.log2_spec a Hpos) as [Hlo Hhi].
  replace (Z.log2 a) with (52 + e) in Hlo by lia.
  replace (Z.succ (Z.log2 a)) with (53 + e) in Hhi by lia.
  rewrite Z.pow_add_r in Hlo, Hhi by lia.
  set (q := a / 2 ^ e) in *. set (r := a mod 2 ^ e) in *.
  set (P := 2 ^ e) in *. set (H := 2 ^ (e - 1)) in *.
  change (2 ^ 52) with 4503599627370496 in *.
  change (2 ^ 53) with 9007199254740992 in *.
  exists e, q, r. fold P.
  split; [reflexivity |]. split; [exact He |].
  clearbody P H q r. clear Hlog. clearbody e.
  split; [lia |]. split; [exact Hr |]. split; [nia |].
  destruct (Z.ltb_spec r H); [left; split; [reflexivity | lia] |].
  destruct (Z.ltb_spec H r); [right; split; [reflexivity | lia] |].
  destruct (Z.even q); [left | right]; (split; [reflexivity | lia]).
Qed.

(** Rounding does not cross [2 ^ 53]. *)
Lemma round_magnitude_large (a : Z) :
  2 ^ 53 <= a -> 2 ^ 53 <= round_magnitude a.
Proof.
  intros Ha.
  destruct (round_magnitude_cases a Ha)
    as (e & q & r & _ & He & _ & _ & Hq & Hcases).
  assert (2 <= 2 ^ e) as Hpow
    by (change 2 with (2 ^ 1) at 1; apply Z.pow_le_mono_r; lia).
  change (2 ^ 52) with 4503599627370496 in *.
  change (2 ^ 53) with 9007199254740992 in *.
  destruct Hcases as [[-> _] | [-> _]]; nia.
Qed.

(** Rounding a non-negative magnitude gives a non-negative magnitude that is
    zero only for zero, and it is monotone against small values. *)
Lemma round_magnitude_above (a k : Z) :
  0 <= k <= 2 ^ 53 -> k <= a -> k <= round_magnitude a.
Proof.
  intros Hk Ha. destruct (Z.le_gt_cases (2 ^ 53) a) as [Hbig | Hsmall].
  - pose proof (round_magnitude_large a Hbig). lia.
  - unfold round_magnitude, precision.
    destruct (Z.ltb_spec a (2 ^ 53)); lia.
Qed.

(** One away from a value binary64 holds, the rounding stays finite. *)
Lemma round_magnitude_next_finite (a b : Z) :
  0 <= b -> round_magnitude b = b -> b < 2 ^ 1024 ->
  0 <= a <= b + 1 ->
  round_magnitude a < 2 ^ 1024.
Proof.
  intros Hb0 Hb Hfin Ha.
  assert (2 ^ 1024 = 2 ^ 54 * 2 ^ 970) as E1024
    by (rewrite <- Z.pow_add_r by lia; reflexivity).
  assert (2 ^ 1023 = 2 ^ 53 * 2 ^ 970) as E1023
    by (rewrite <- Z.pow_add_r by lia; reflexivity).
  assert (2 ^ 971 = 2 * 2 ^ 970) as E971
    by (rewrite <- Z.pow_succ_r by lia; reflexivity).
  assert (0 < 2 ^ 970) as HP by (apply Z.pow_pos_nonneg; lia).
  destruct (Z.lt_ge_cases a (2 ^ 53)) as [Hsmall | Hbig].
  - unfold round_magnitude, precision.
    destruct (Z.ltb_spec a (2 ^ 53)); [| lia].
    rewrite E1024. change (2 ^ 53) with 9007199254740992 in *.
    change (2 ^ 54) with 18014398509481984. nia.
  - destruct (round_magnitude_cases a Hbig)
      as (e & q & r & Hedef & He & Hsplit & Hr & Hq & Hcases).
    assert (0 < a) as Hapos by (assert (0 < 2 ^ 53) by lia; lia).
    (* the bits dropped are at most 971, and at most 970 below 2^1023 *)
    assert (a <= 2 ^ 1024 - 2 ^ 970 - 1 /\ e <= 971 \/ a <= 2 ^ 1023 /\ e <= 971)
      as Hbound.
    { destruct (Z.lt_ge_cases b (2 ^ 1023)) as [Hb1023 | Hb1023].
      - right. split; [lia |].
        assert (a < 2 ^ 1024) by (rewrite E1024, E1023 in *; lia).
        assert (Z.log2 a < 1024) by (apply Z.log2_lt_pow2; assumption). lia.
      - left.
        assert (2 ^ 53 <= b)
          by (rewrite E1023 in Hb1023;
              change (2 ^ 53) with 9007199254740992 in *; nia).
        destruct (round_magnitude_cases b ltac:(assumption))
          as (eb & qb & rb & Hebdef & Heb & Hbsplit & Hrb & Hqb & Hbcases).
        assert (0 < b) as Hbpos by lia.
        assert (Z.log2 b = 1023) as Hlogb.
        { assert (Z.log2 b < 1024) by (apply Z.log2_lt_pow2; assumption).
          assert (1023 <= Z.log2 b) by (apply Z.log2_le_pow2; assumption).
          lia. }
        assert (eb = 971) as -> by lia.
        rewrite Hb in Hbcases.
        assert (exists k, b = k * 2 ^ 971) as [k Hk]
          by (destruct Hbcases as [[-> _] | [-> _]]; eexists; reflexivity).
        assert (b <= 2 ^ 1024 - 2 ^ 971)
          by (rewrite E1024, E971 in *;
              change (2 ^ 54) with 18014398509481984 in *; nia).
        assert (a < 2 ^ 1024) by (rewrite E971 in *; lia).
        assert (Z.log2 a < 1024) by (apply Z.log2_lt_pow2; assumption).
        split; [rewrite E971 in *; lia | lia]. }
    assert (2 ^ e <= 2 ^ 971) as Hpe
      by (apply Z.pow_le_mono_r; destruct Hbound as [[_ ?] | [_ ?]]; lia).
    assert (round_magnitude a <= a + 2 ^ 970) as Hnear.
    { rewrite E971 in Hpe.
      destruct Hcases as [[-> _] | [-> Hup]]; lia. }
    destruct Hbound as [[Hle _] | [Hle _]].
    + lia.
    + rewrite E1024. rewrite E1023 in Hle.
      change (2 ^ 53) with 9007199254740992 in *.
      change (2 ^ 54) with 18014398509481984. lia.
Qed.

Lemma representable_magnitude (b : Z) :
  representable b ->
  round_magnitude (Z.abs b) = Z.abs b /\ Z.abs b < 2 ^ 1024.
Proof.
  unfold representable, round, emax.
  destruct (Z.ltb_spec (round_magnitude (Z.abs b)) (2 ^ 1024)) as [Hfin | _];
    [| discriminate].
  intros [= Hb]. destruct b as [| p | p].
  - split; [reflexivity | apply Z.pow_pos_nonneg; lia].
  - cbn [Z.sgn Z.abs] in *. split; lia.
  - cbn [Z.sgn Z.abs] in *. split; lia.
Qed.

(** One away from a number binary64 holds, the result is still finite. *)
Lemma round_near_representable (b z : Z) :
  representable b -> Z.abs z <= Z.abs b + 1 ->
  exists v, round z = Finite v.
Proof.
  intros Hb Hz. destruct (representable_magnitude b Hb) as [Hrm Hfin].
  pose proof (round_magnitude_next_finite (Z.abs z) (Z.abs b)
                ltac:(lia) Hrm Hfin ltac:(lia)) as Hnext.
  unfold round, emax.
  destruct (Z.ltb_spec (round_magnitude (Z.abs z)) (2 ^ 1024)); [| lia].
  eexists; reflexivity.
Qed.

Lemma round_not_NaN (z : Z) : round z <> NaN.
Proof. unfold round. destruct (_ <? _); discriminate. Qed.

Lemma sub_finite_not_NaN (a : Z) (y : number) :
  y <> NaN -> sub (Finite a) y <> NaN.
Proof.
  destruct y as [| b | b]; intros Hy; cbn [sub];
    [now elim Hy | discriminate | apply round_not_NaN].
Qed.

Lemma sub_by_finite_not_NaN (x : number) (b : Z) :
  x <> NaN -> sub x (Finite b) <> NaN.
Proof.
  destruct x as [| a | a]; intros Hx; cbn [sub];
    [now elim Hx | discriminate | apply round_not_NaN].
Qed.

(** On integers binary64 holds, neither [maxId] nor the candidate for
    [minId] is NaN. *)
Lemma descPagination_no_NaN (total page perPage : Z) (zeroBased : bool) :
  representable total -> representable page ->
  let w := Double.descPagination (Finite total) (Finite page)
             (Finite perPage) zeroBased in
  maxId w <> NaN /\ sub (maxId w) (Finite perPage) <> NaN.
Proof.
  intros Htotal Hpage. cbv zeta.
  unfold Double.descPagination; cbn [maxId].
  assert (exists t, (if zeroBased then sub (Finite total) (Finite 1)
                     else Finite total) = Finite t) as [t ->].
  { destruct zeroBased; [| now exists total]. cbn [sub].
    apply (round_near_representable total); [assumption | lia]. }
  assert (exists p, sub (Finite page) (Finite 1) = Finite p) as [p ->].
  { cbn [sub]. apply (round_near_representable page); [assumption | lia]. }
  assert (sub (Finite t) (mul (Finite p) (Finite perPage)) <> NaN) as Hmax
    by (apply sub_finite_not_NaN; cbn [mul]; apply round_not_NaN).
  split; [exact Hmax | now apply sub_by_finite_not_NaN].
Qed.

(** The rounding written out above is that of the Standard Library's IEEE 754
    specification, here on the operations the examples below go through. *)
Example operations_agree_with_SpecFloat :
  to_spec_float (sub (Finite (2 ^ 53 + 2)) (Finite 1))
  = SpecFloat.SFsub precision emax
      (to_spec_float (Finite (2 ^ 53 + 2))) (to_spec_float (Finite 1)) /\
  to_spec_float (sub (Finite (2 ^ 53 + 4)) (Finite 1))
  = SpecFloat.SFsub precision emax
      (to_spec_float (Finite (2 ^ 53 + 4))) (to_spec_float (Finite 1)) /\
  to_spec_float (sub (Finite (2 ^ 54 + 4)) (Finite 3))
  = SpecFloat.SFsub precision emax
      (to_spec_float (Finite (2 ^ 54 + 4))) (to_spec_float (Finite 3)) /\
  to_spec_float (sub (Finite 24) (Finite 30))
  = SpecFloat.SFsub precision emax
      (to_spec_float (Finite 24)) (to_spec_float (Finite 30)) /\
  to_spec_float (mul (Finite 3) (Finite (2 ^ 53 + 2)))
  = SpecFloat.SFmul precision emax
      (to_spec_float (Finite 3)) (to_spec_float (Finite (2 ^ 53 + 2))) /\
  to_spec_float (mul (Finite (- 2 ^ 600)) (Finite (2 ^ 600)))
  = SpecFloat.SFmul precision emax
      (to_spec_float (Finite (- 2 ^ 600))) (to_spec_float (Finite (2 ^ 600))) /\
  lt (Finite (2 ^ 53 + 2)) (Finite (2 ^ 53 + 4))
  = SpecFloat.SFltb
      (to_spec_float (Finite (2 ^ 53 + 2)))
      (to_spec_float (Finite (2 ^ 53 + 4))) /\
  lt (Finite (-6)) (Finite (-1))
  = SpecFloat.SFltb (to_spec_float (Finite (-6))) (to_spec_float (Finite (-1))).
Proof. repeat split; vm_compute; reflexivity. Qed.

End DoubleFacts.

(** C1, as stated, fails: [2 ^ 53 + 2] is a number the code can be handed,
    and the first page of that many items, zero-based, starts at [2 ^ 53],
    not at [2 ^ 53 + 1]: the subtraction of one is rounded. *)
Lemma descPagination_rounds_past_2_53 :
  Double.representable (2 ^ 53 + 2) /\
  Double.maxId
    (Double.descPagination (Double.Finite (2 ^ 53 + 2)) (Double.Finite 1)
       (Double.Finite 10) true)
  = Double.Finite (2 ^ 53) /\
  maxId (spec_window (2 ^ 53 + 2) 1 10 true) = 2 ^ 53 + 1 /\
  Double.descPagination (Double.Finite (2 ^ 53 + 2)) (Double.Finite 1)
    (Double.Finite 10) true
  <> Double.of_integers (spec_window (2 ^ 53 + 2) 1 10 true).
Proof.
  split; [reflexivity |]. split; [reflexivity |]. split; [reflexivity |].
  intros H. apply (f_equal Double.maxId) in H. vm_compute in H. discriminate H.
Qed.

(** C1, amended.  For integers [total], [page], [perPage] in range (the
    arguments and every intermediate result at most [2 ^ 53] in magnitude)
    and either mode, [descPagination] returns exactly the window the
    specification describes: [maxId] is the effective total less
    [(page - 1) * perPage], [minId] the larger of [maxId - perPage] and the
    floor, [hasPrev] says that [maxId] is below the effective total and
    [hasNext] that [minId] is above the floor. *)
Theorem descPagination_window_in_range :
  forall (total page perPage : Z) (zeroBased : bool),
    Double.in_range total page perPage zeroBased ->
    Double.descPagination (Double.Finite total) (Double.Finite page)
      (Double.Finite perPage) zeroBased
    = Double.of_integers (spec_window total page perPage zeroBased).
Proof.
  intros total page perPage zeroBased Hrange.
  rewrite descPagination_in_range by exact Hrange.
  now rewrite descPagination_refines_spec_window.
Qed.

Lemma descPagination_window_in_range_witness :
  Double.descPagination (Double.Finite 25) (Double.Finite 3)
    (Double.Finite 10) true
  = Double.of_integers (spec_window 25 3 10 true).
Proof.
  apply (descPagination_window_in_range 25 3 10 true).
  unfold Double.in_range; cbv zeta; lia.
Defined.

(** Out of range a page that starts at the very end of the collection,
    [(page - 1) * perPage = total], already has its rounded [maxId] below the
    floor. *)
Example maxId_below_minId_out_of_range :
  (2 - 1) * (2 ^ 53 + 2) <= 2 ^ 53 + 2 /\
  Double.descPagination (Double.Finite (2 ^ 53 + 2)) (Double.Finite 2)
    (Double.Finite (2 ^ 53 + 2)) true
  = {| Double.maxId := Double.Finite (-2);
       Double.minId := Double.Finite (-1);
       Double.hasPrev := true;
       Double.hasNext := false |}.
Proof. split; [vm_compute; discriminate | reflexivity]. Qed.

(** C4, amended.  For [total >= 0], [page >= 1], [perPage >= 1] in range and
    either mode, the window has [maxId >= minId] exactly when the page starts
    inside the collection, that is when [(page - 1) * perPage <= total]. *)
Theorem maxId_ge_minId_iff_in_range :
  forall (total page perPage : Z) (zeroBased : bool),
    total >= 0 -> page >= 1 -> perPage >= 1 ->
    Double.in_range total page perPage zeroBased ->
    exists hi lo : Z,
      Double.maxId
        (Double.descPagination (Double.Finite total) (Double.Finite page)
           (Double.Finite perPage) zeroBased) = Double.Finite hi /\
      Double.minId
        (Double.descPagination (Double.Finite total) (Double.Finite page)
           (Double.Finite perPage) zeroBased) = Double.Finite lo /\
      (hi >= lo <-> (page - 1) * perPage <= total).
Proof.
  intros total page perPage zeroBased Htotal Hpage Hper Hrange.
  rewrite descPagination_in_range by exact Hrange.
  exists (maxId (descPagination total page perPage zeroBased)),
         (minId (descPagination total page perPage zeroBased)).
  split; [reflexivity |]. split; [reflexivity |].
  now apply maxId_ge_minId_iff.
Qed.

Lemma maxId_ge_minId_iff_in_range_witness :
  exists hi lo : Z,
    Double.maxId
      (Double.descPagination (Double.Finite 25) (Double.Finite 3)
         (Double.Finite 10) true) = Double.Finite hi /\
    Double.minId
      (Double.descPagination (Double.Finite 25) (Double.Finite 3)
         (Double.Finite 10) true) = Double.Finite lo /\
    (hi >= lo <-> (3 - 1) * 10 <= 25).
Proof.
  apply (maxId_ge_minId_iff_in_range 25 3 10 true); try lia.
  unfold Double.in_range; cbv zeta; lia.
Defined.

(** C7, as stated, fails: with [2 ^ 53 + 4] items, one a page, one-based,
    page 2 starts at [2 ^ 53 + 4] and page 3 at [2 ^ 53 + 2], two lower and
    not one. *)
Lemma maxId_next_page_rounds_past_2_53 :
  Double.representable (2 ^ 53 + 4) /\ 2 >= 1 /\
  Double.maxId
    (Double.descPagination (Double.Finite (2 ^ 53 + 4)) (Double.Finite 2)
       (Double.Finite 1) false)
  = Double.Finite (2 ^ 53 + 4) /\
  Double.maxId
    (Double.descPagination (Double.Finite (2 ^ 53 + 4)) (Double.Finite (2 + 1))
       (Double.Finite 1) false)
  = Double.Finite (2 ^ 53 + 2) /\
  2 ^ 53 + 2 <> 2 ^ 53 + 4 - 1 /\
  Double.Finite (2 ^ 53 + 2)
  <> Double.sub (Double.Finite (2 ^ 53 + 4)) (Double.Finite 1).
Proof.
  split; [reflexivity |]. split; [lia |].
  split; [reflexivity |]. split; [reflexivity |].
  split; [vm_compute; discriminate |].
  vm_compute. discriminate.
Qed.

(** C7, amended.  For every [page >= 1], with both pages in range, going to
    the next page lowers [maxId] by exactly [perPage], the other arguments
    held fixed. *)
Theorem maxId_next_page_in_range :
  forall (total perPage : Z) (zeroBased : bool) (page : Z),
    page >= 1 ->
    Double.in_range total page perPage zeroBased ->
    Double.in_range total (page + 1) perPage zeroBased ->
    exists hi : Z,
      Double.maxId
        (Double.descPagination (Double.Finite total) (Double.Finite page)
           (Double.Finite perPage) zeroBased) = Double.Finite hi /\
      Double.maxId
        (Double.descPagination (Double.Finite total) (Double.Finite (page + 1))
           (Double.Finite perPage) zeroBased) = Double.Finite (hi - perPage).
Proof.
  intros total perPage zeroBased page Hpage Hrange Hnext.
  rewrite !descPagination_in_range by assumption.
  exists (maxId (descPagination total page perPage zeroBased)).
  split; [reflexivity |]. cbn [Double.of_integers Double.maxId].
  f_equal. now apply maxId_next_page.
Qed.

Lemma maxId_next_page_in_range_witness :
  exists hi : Z,
    Double.maxId
      (Double.descPagination (Double.Finite 25) (Double.Finite 2)
         (Double.Finite 10) true) = Double.Finite hi /\
    Double.maxId
      (Double.descPagination (Double.Finite 25) (Double.Finite (2 + 1))
         (Double.Finite 10) true) = Double.Finite (hi - 10).
Proof.
  apply (maxId_next_page_in_range 25 10 true 2); try lia;
    unfold Double.in_range; cbv zeta; lia.
Defined.

(** C9, as stated, fails: the first page of [2 ^ 54 + 4] items, three a page,
    one-based, runs from [2 ^ 54 + 4] down to [2 ^ 54]: it spans four
    indices. *)
Lemma span_exceeds_perPage_past_2_53 :
  Double.representable (2 ^ 54 + 4) /\
  Double.descPagination (Double.Finite (2 ^ 54 + 4)) (Double.Finite 1)
    (Double.Finite 3) false
  = {| Double.maxId := Double.Finite (2 ^ 54 + 4);
       Double.minId := Double.Finite (2 ^ 54);
       Double.hasPrev := false;
       Double.hasNext := true |} /\
  ~ (2 ^ 54 + 4 - 2 ^ 54 <= 3).
Proof.
  split; [reflexivity |]. split; [reflexivity |]. vm_compute. tauto.
Qed.

(** C9, amended.  For all integers binary64 holds and either mode, [minId]
    is a number not below the floor, also for pages past the end; and for
    arguments in range the window spans at most [perPage] indices:
    [maxId - minId <= perPage]. *)
Theorem minId_not_below_floor_and_span_in_range :
  forall (total page perPage : Z) (zeroBased : bool),
    Double.representable total ->
    Double.representable page ->
    Double.representable perPage ->
    (Double.minId
       (Double.descPagination (Double.Finite total) (Double.Finite page)
          (Double.Finite perPage) zeroBased) <> Double.NaN /\
     Double.lt
       (Double.minId
          (Double.descPagination (Double.Finite total) (Double.Finite page)
             (Double.Finite perPage) zeroBased))
       (Double.Finite (if zeroBased then -1 else 0)) = false) /\
    (Double.in_range total page perPage zeroBased ->
     exists hi lo : Z,
       Double.maxId
         (Double.descPagination (Double.Finite total) (Double.Finite page)
            (Double.Finite perPage) zeroBased) = Double.Finite hi /\
       Double.minId
         (Double.descPagination (Double.Finite total) (Double.Finite page)
            (Double.Finite perPage) zeroBased) = Double.Finite lo /\
       lo >= (if zeroBased then -1 else 0) /\
       hi - lo <= perPage).
Proof.
  intros total page perPage zeroBased Htotal Hpage Hper. split.
  - destruct (descPagination_no_NaN total page perPage zeroBased Htotal Hpage)
      as [_ Hx].
    revert Hx. unfold Double.descPagination.
    cbn [Double.maxId Double.minId].
    set (x := Double.sub _ (Double.Finite perPage)).
    replace (if zeroBased then Double.Finite (-1) else Double.Finite 0)
      with (Double.Finite (if zeroBased then -1 else 0))
      by (destruct zeroBased; reflexivity).
    intros Hx.
    destruct (Double.lt x (Double.Finite (if zeroBased then -1 else 0)))
      eqn:Hlt.
    + split; [discriminate |]. cbn [Double.lt]. apply Z.ltb_irrefl.
    + split; assumption.
  - intros Hrange. rewrite descPagination_in_range by exact Hrange.
    exists (maxId (descPagination total page perPage zeroBased)),
           (minId (descPagination total page perPage zeroBased)).
    split; [reflexivity |]. split; [reflexivity |].
    apply minId_ge_floor_and_span.
Qed.

Lemma minId_not_below_floor_and_span_in_range_witness :
  (Double.minId
     (Double.descPagination (Double.Finite 25) (Double.Finite 4)
        (Double.Finite 10) true) <> Double.NaN /\
   Double.lt
     (Double.minId
        (Double.descPagination (Double.Finite 25) (Double.Finite 4)
           (Double.Finite 10) true))
     (Double.Finite (-1)) = false) /\
  (Double.in_range 25 4 10 true ->
   exists hi lo : Z,
     Double.maxId
       (Double.descPagination (Double.Finite 25) (Double.Finite 4)
          (Double.Finite 10) true) = Double.Finite hi /\
     Double.minId
       (Double.descPagination (Double.Finite 25) (Double.Finite 4)
          (Double.Finite 10) true) = Double.Finite lo /\
     lo >= -1 /\
     hi - lo <= 10).
Proof.
  apply (minId_not_below_floor_and_span_in_range 25 4 10 true); reflexivity.
Defined.

(** X1.  With [perPage >= 1] and the arguments in range, a page has a
    previous one exactly when it is not the first: [hasPrev] is true iff
    [page > 1]. *)
Theorem hasPrev_iff_after_first_page_in_range :
  forall (total page perPage : Z) (zeroBased : bool),
    perPage >= 1 ->
    Double.in_range total page perPage zeroBased ->
    (Double.hasPrev
       (Double.descPagination (Double.Finite total) (Double.Finite page)
          (Double.Finite perPage) zeroBased) = true
     <-> page > 1).
Proof.
  intros total page perPage zeroBased Hper Hrange.
  rewrite descPagination_in_range by exact Hrange.
  now apply hasPrev_iff_after_first_page.
Qed.

Lemma hasPrev_iff_after_first_page_in_range_witness :
  Double.hasPrev
    (Double.descPagination (Double.Finite 25) (Double.Finite 3)
       (Double.Finite 10) true) = true
  <-> 3 > 1.
Proof.
  apply (hasPrev_iff_after_first_page_in_range 25 3 10 true); [lia |].
  unfold Double.in_range; cbv zeta; lia.
Defined.

(** X2.  With the arguments in range, [hasNext] is true exactly when the
    pages up to and including this one do not reach the total:
    [page * perPage < total], in either mode. *)
Theorem hasNext_iff_items_left_in_range :
  forall (total page perPage : Z) (zeroBased : bool),
    Double.in_range total page perPage zeroBased ->
    (Double.hasNext
       (Double.descPagination (Double.Finite total) (Double.Finite page)
          (Double.Finite perPage) zeroBased) = true
     <-> page * perPage < total).
Proof.
  intros total page perPage zeroBased Hrange.
  rewrite descPagination_in_range by exact Hrange.
  apply hasNext_iff_items_left.
Qed.

Lemma hasNext_iff_items_left_in_range_witness :
  Double.hasNext
    (Double.descPagination (Double.Finite 25) (Double.Finite 2)
       (Double.Finite 10) true) = true
  <-> 2 * 10 < 25.
Proof.
  apply (hasNext_iff_items_left_in_range 25 2 10 true).
  unfold Double.in_range; cbv zeta; lia.
Defined.

(** X3.  With both pages in range, consecutive windows adjoin: the [minId]
    of a page is the [maxId] of the next page exactly when this page is full,
    [page * perPage <= total]; otherwise [minId] was clamped to the floor. *)
Theorem minId_meets_next_maxId_in_range :
  forall (total page perPage : Z) (zeroBased : bool),
    Double.in_range total page perPage zeroBased ->
    Double.in_range total (page + 1) perPage zeroBased ->
    (Double.minId
       (Double.descPagination (Double.Finite total) (Double.Finite page)
          (Double.Finite perPage) zeroBased)
     = Double.maxId
         (Double.descPagination (Double.Finite total)
            (Double.Finite (page + 1)) (Double.Finite perPage) zeroBased)
     <-> page * perPage <= total).
Proof.
  intros total page perPage zeroBased Hrange Hnext.
  rewrite !descPagination_in_range by assumption.
  cbn [Double.of_integers Double.maxId Double.minId].
  split.
  - intros H. injection H as H.
    exact (proj1 (minId_meets_next_maxId total page perPage zeroBased) H).
  - intros H.
    now rewrite (proj2 (minId_meets_next_maxId total page perPage zeroBased) H).
Qed.

Lemma minId_meets_next_maxId_in_range_witness :
  Double.minId
    (Double.descPagination (Double.Finite 25) (Double.Finite 2)
       (Double.Finite 10) true)
  = Double.maxId
      (Double.descPagination (Double.Finite 25) (Double.Finite (2 + 1))
         (Double.Finite 10) true)
  <-> 2 * 10 <= 25.
Proof.
  apply (minId_meets_next_maxId_in_range 25 2 10 true);
    unfold Double.in_range; cbv zeta; lia.
Defined.

(** X4.  With the arguments in range, the window holds [maxId - minId]
    indices, and that is the smaller of [perPage] and what is left of the
    total from this page on, [total - (page - 1) * perPage]. *)
Theorem window_size_in_range :
  forall (total page perPage : Z) (zeroBased : bool),
    Double.in_range total page perPage zeroBased ->
    exists hi lo : Z,
      Double.maxId
        (Double.descPagination (Double.Finite total) (Double.Finite page)
           (Double.Finite perPage) zeroBased) = Double.Finite hi /\
      Double.minId
        (Double.descPagination (Double.Finite total) (Double.Finite page)
           (Double.Finite perPage) zeroBased) = Double.Finite lo /\
      hi - lo = Z.min perPage (total - (page - 1) * perPage).
Proof.
  intros total page perPage zeroBased Hrange.
  rewrite descPagination_in_range by exact Hrange.
  exists (maxId (descPagination total page perPage zeroBased)),
         (minId (descPagination total page perPage zeroBased)).
  split; [reflexivity |]. split; [reflexivity |]. apply window_size.
Qed.

Lemma window_size_in_range_witness :
  exists hi lo : Z,
    Double.maxId
      (Double.descPagination (Double.Finite 25) (Double.Finite 3)
         (Double.Finite 10) true) = Double.Finite hi /\
    Double.minId
      (Double.descPagination (Double.Finite 25) (Double.Finite 3)
         (Double.Finite 10) true) = Double.Finite lo /\
    hi - lo = Z.min 10 (25 - (3 - 1) * 10).
Proof.
  apply (window_size_in_range 25 3 10 true).
  unfold Double.in_range; cbv zeta; lia.
Defined.

(** X5.  With the arguments in range in both modes, the two modes differ by
    a shift of one: the one-based window has both bounds one higher than the
    zero-based window and the same flags. *)
Theorem one_based_is_zero_based_shifted_in_range :
  forall (total page perPage : Z),
    Double.in_range total page perPage true ->
    Double.in_range total page perPage false ->
    exists hi lo : Z,
      Double.maxId
        (Double.descPagination (Double.Finite total) (Double.Finite page)
           (Double.Finite perPage) true) = Double.Finite hi /\
      Double.minId
        (Double.descPagination (Double.Finite total) (Double.Finite page)
           (Double.Finite perPage) true) = Double.Finite lo /\
      Double.descPagination (Double.Finite total) (Double.Finite page)
        (Double.Finite perPage) false
      = {| Double.maxId := Double.Finite (hi + 1);
           Double.minId := Double.Finite (lo + 1);
           Double.hasPrev :=
             Double.hasPrev
               (Double.descPagination (Double.Finite total)
                  (Double.Finite page) (Double.Finite perPage) true);
           Double.hasNext :=
             Double.hasNext
               (Double.descPagination (Double.Finite total)
                  (Double.Finite page) (Double.Finite perPage) true) |}.
Proof.
  intros total page perPage Hzero Hone.
  rewrite !descPagination_in_range by assumption.
  exists (maxId (descPagination total page perPage true)),
         (minId (descPagination total page perPage true)).
  split; [reflexivity |]. split; [reflexivity |].
  rewrite (one_based_is_zero_based_shifted total page perPage) at 1.
  reflexivity.
Qed.

Lemma one_based_is_zero_based_shifted_in_range_witness :
  exists hi lo : Z,
    Double.maxId
      (Double.descPagination (Double.Finite 25) (Double.Finite 3)
         (Double.Finite 10) true) = Double.Finite hi /\
    Double.minId
      (Double.descPagination (Double.Finite 25) (Double.Finite 3)
         (Double.Finite 10) true) = Double.Finite lo /\
    Double.descPagination (Double.Finite 25) (Double.Finite 3)
      (Double.Finite 10) false
    = {| Double.maxId := Double.Finite (hi + 1);
         Double.minId := Double.Finite (lo + 1);
         Double.hasPrev :=
           Double.hasPrev
             (Double.descPagination (Double.Finite 25) (Double.Finite 3)
                (Double.Finite 10) true);
         Double.hasNext :=
           Double.hasNext
             (Double.descPagination (Double.Finite 25) (Double.Finite 3)
                (Double.Finite 10) true) |}.
Proof.
  apply (one_based_is_zero_based_shifted_in_range 25 3 10);
    unfold Double.in_range; cbv zeta; lia.
Defined.

(** X6.  With [1 <= perPage] and [total] and [perPage] at most [2 ^ 51], the
    windows partition the collection: every valid index ([0 .. total - 1]
    zero-based, [1 .. total] one-based) lies in the window
    [minId < index <= maxId] of a page [page >= 1] in range, and of no other
    page in range. *)
Theorem every_index_on_exactly_one_page_in_range :
  forall (total perPage index : Z) (zeroBased : bool),
    1 <= perPage <= 2 ^ 51 ->
    total <= 2 ^ 51 ->
    (if zeroBased then 0 else 1) <= index
      <= (if zeroBased then total - 1 else total) ->
    exists page,
      page >= 1 /\
      Double.in_range total page perPage zeroBased /\
      (Double.lt
         (Double.minId
            (Double.descPagination (Double.Finite total) (Double.Finite page)
               (Double.Finite perPage) zeroBased))
         (Double.Finite index) = true /\
       Double.lt
         (Double.maxId
            (Double.descPagination (Double.Finite total) (Double.Finite page)
               (Double.Finite perPage) zeroBased))
         (Double.Finite index) = false) /\
      forall page',
        Double.in_range total page' perPage zeroBased ->
        Double.lt
          (Double.minId
             (Double.descPagination (Double.Finite total)
                (Double.Finite page') (Double.Finite perPage) zeroBased))
          (Double.Finite index) = true ->
        Double.lt
          (Double.maxId
             (Double.descPagination (Double.Finite total)
                (Double.Finite page') (Double.Finite perPage) zeroBased))
          (Double.Finite index) = false ->
        page' = page.
Proof.
  intros total perPage index zeroBased Hper Htotal Hidx.
  destruct (every_index_on_exactly_one_page total perPage index zeroBased
              ltac:(lia) Hidx) as (page & Hpage & Hin & Hunique).
  assert (Double.in_range total page perPage zeroBased) as Hrange.
  { pose proof (minId_is_max total page perPage zeroBased) as Hmin.
    pose proof (maxId_eq total page perPage zeroBased) as Hmax.
    rewrite Hmax in Hin. unfold effectiveTotal in Hin.
    apply in_range_small;
      change (2 ^ 51) with 2251799813685248 in *;
      destruct zeroBased; nia. }
  exists page. split; [exact Hpage |]. split; [exact Hrange |]. split.
  - rewrite descPagination_in_range by exact Hrange.
    cbn [Double.of_integers Double.maxId Double.minId Double.lt].
    split; [apply Z.ltb_lt | apply Z.ltb_ge]; lia.
  - intros page' Hrange'. rewrite descPagination_in_range by exact Hrange'.
    cbn [Double.of_integers Double.maxId Double.minId Double.lt].
    intros Hlo Hhi. apply Z.ltb_lt in Hlo. apply Z.ltb_ge in Hhi.
    apply Hunique. lia.
Qed.

Lemma every_index_on_exactly_one_page_in_range_witness :
  exists page,
    page >= 1 /\
    Double.in_range 25 page 10 true /\
    (Double.lt
       (Double.minId
          (Double.descPagination (Double.Finite 25) (Double.Finite page)
             (Double.Finite 10) true))
       (Double.Finite 7) = true /\
     Double.lt
       (Double.maxId
          (Double.descPagination (Double.Finite 25) (Double.Finite page)
             (Double.Finite 10) true))
       (Double.Finite 7) = false) /\
    forall page',
      Double.in_range 25 page' 10 true ->
      Double.lt
        (Double.minId
           (Double.descPagination (Double.Finite 25) (Double.Finite page')
              (Double.Finite 10) true))
        (Double.Finite 7) = true ->
      Double.lt
        (Double.maxId
           (Double.descPagination (Double.Finite 25) (Double.Finite page')
              (Double.Finite 10) true))
        (Double.Finite 7) = false ->
      page' = page.
Proof.
  apply (every_index_on_exactly_one_page_in_range 25 10 7 true); lia.
Defined.

(** X27.  For all integers binary64 holds, whatever their size, and either
    mode: [hasNext] is false exactly when [minId] is the floor. *)
Theorem no_next_page_iff_floor_reached_binary64 :
  forall (total page perPage : Z) (zeroBased : bool),
    Double.representable total ->
    Double.representable page ->
    (Double.hasNext
       (Double.descPagination (Double.Finite total) (Double.Finite page)
          (Double.Finite perPage) zeroBased) = false
     <-> Double.minId
           (Double.descPagination (Double.Finite total) (Double.Finite page)
              (Double.Finite perPage) zeroBased)
         = Double.Finite (if zeroBased then -1 else 0)).
Proof.
  intros total page perPage zeroBased Htotal Hpage.
  destruct (descPagination_no_NaN total page perPage zeroBased Htotal Hpage)
    as [_ Hx].
  revert Hx. unfold Double.descPagination.
  cbn [Double.maxId Double.minId Double.hasNext].
  set (x := Double.sub _ (Double.Finite perPage)).
  replace (if zeroBased then Double.Finite (-1) else Double.Finite 0)
    with (Double.Finite (if zeroBased then -1 else 0))
    by (destruct zeroBased; reflexivity).
  set (floor := if zeroBased then -1 else 0).
  intros Hx. unfold Double.gt.
  destruct (Double.lt x (Double.Finite floor)) eqn:Hlt.
  - cbn [Double.lt]. rewrite Z.ltb_irrefl. tauto.
  - destruct x as [| negative | v]; [now elim Hx | |].
    + cbn [Double.lt] in *. subst negative. cbn. split; discriminate.
    + cbn [Double.lt] in *. apply Z.ltb_ge in Hlt. split.
      * intros Hnext. apply Z.ltb_ge in Hnext. f_equal. lia.
      * intros [= ->]. apply Z.ltb_irrefl.
Qed.

Lemma no_next_page_iff_floor_reached_binary64_witness :
  Double.hasNext
    (Double.descPagination (Double.Finite (2 ^ 53 + 2)) (Double.Finite 2)
       (Double.Finite (2 ^ 53 + 2)) true) = false
  <-> Double.minId
        (Double.descPagination (Double.Finite (2 ^ 53 + 2)) (Double.Finite 2)
           (Double.Finite (2 ^ 53 + 2)) true)
      = Double.Finite (-1).
Proof.
  apply (no_next_page_iff_floor_reached_binary64 (2 ^ 53 + 2) 2 (2 ^ 53 + 2)
           true);
    reflexivity.
Defined.

(** X28.  For every [perPage >= 1], whatever its size, the first page of an
    empty zero-based collection is the empty window [-1, -1] with both flags
    false. *)
Theorem empty_collection_window_binary64 :
  forall perPage : Z,
    perPage >= 1 ->
    Double.descPagination (Double.Finite 0) (Double.Finite 1)
      (Double.Finite perPage) true
    = {| Double.maxId := Double.Finite (-1);
         Double.minId := Double.Finite (-1);
         Double.hasPrev := false;
         Double.hasNext := false |}.
Proof.
  intros perPage Hper.
  assert (Double.lt (Double.round (-1 - perPage)) (Double.Finite (-1)) = true)
    as Hbelow.
  { unfold Double.round.
    pose proof (round_magnitude_above (Z.abs (-1 - perPage)) 2
                  ltac:(lia) ltac:(lia)) as Hm.
    replace (Z.sgn (-1 - perPage)) with (-1) by lia.
    destruct (_ <? 2 ^ Double.emax).
    - cbn [Double.lt]. apply Z.ltb_lt. lia.
    - cbn [Double.lt]. apply Z.ltb_lt. lia. }
  unfold Double.descPagination.
  change (Double.sub (Double.Finite 0) (Double.Finite 1))
    with (Double.Finite (-1)).
  change (Double.sub (Double.Finite 1) (Double.Finite 1))
    with (Double.Finite 0).
  change (Double.mul (Double.Finite 0) (Double.Finite perPage))
    with (Double.Finite 0).
  change (Double.sub (Double.Finite (-1)) (Double.Finite 0))
    with (Double.Finite (-1)).
  change (Double.sub (Double.Finite (-1)) (Double.Finite perPage))
    with (Double.round (-1 - perPage)).
  rewrite Hbelow. reflexivity.
Qed.

Lemma empty_collection_window_binary64_witness :
  Double.descPagination (Double.Finite 0) (Double.Finite 1)
    (Double.Finite (2 ^ 60)) true
  = {| Double.maxId := Double.Finite (-1);
       Double.minId := Double.Finite (-1);
       Double.hasPrev := false;
       Double.hasNext := false |}.
Proof.
  apply (empty_collection_window_binary64 (2 ^ 60)). lia.
Defined.

(** ** Chunks of an array *)

Section ChunkFacts.
Import Arrays.
Variable A : Type.
Implicit Types (array : list A) (chunk i : Z).

Lemma slice_inside array i chunk :
  0 <= i <= Z.of_nat (List.length array) -> 0 <= chunk ->
  slice array i (i + chunk)
  = firstn (Z.to_nat (Z.min chunk (Z.of_nat (List.length array) - i)))
      (skipn (Z.to_nat i) array).
Proof.
  intros Hi Hc. unfold slice, relative_index.
  destruct (Z.ltb_spec i 0); [lia |].
  destruct (Z.ltb_spec (i + chunk) 0); [lia |].
  f_equal; [lia | f_equal; lia].
Qed.

Lemma slice_length array i chunk :
  0 <= i <= Z.of_nat (List.length array) -> 0 <= chunk ->
  Z.of_nat (List.length (slice array i (i + chunk)))
  = Z.min chunk (Z.of_nat (List.length array) - i).
Proof.
  intros Hi Hc. rewrite slice_inside by assumption.
  rewrite length_firstn, length_skipn. lia.
Qed.

(** A slice and what follows it make up the rest of the array. *)
Lemma slice_then_rest array i chunk :
  0 <= i <= Z.of_nat (List.length array) -> 0 <= chunk ->
  skipn (Z.to_nat i) array
  = (slice array i (i + chunk) ++ skipn (Z.to_nat (i + chunk)) array)%list.
Proof.
  intros Hi Hc. rewrite slice_inside by assumption.
  set (n := Z.to_nat (Z.min chunk (Z.of_nat (List.length array) - i))).
  rewrite <- (firstn_skipn n (skipn (Z.to_nat i) array)) at 1.
  f_equal. rewrite skipn_skipn.
  destruct (Z.le_gt_cases chunk (Z.of_nat (List.length array) - i)).
  - f_equal. lia.
  - rewrite !skipn_all2 by lia. reflexivity.
Qed.

(** What one run of the loop appends, from position [i] on. *)
Lemma arrayChunk_loop_runs array chunk :
  chunk >= 1 ->
  forall (fuel : nat) i (result : list (list A)),
    0 <= i ->
    (Z.to_nat (Z.of_nat (List.length array) - i) < fuel)%nat ->
    exists tail,
      arrayChunk_loop fuel array chunk i (Z.of_nat (List.length array)) result
        = Some (result ++ tail)%list /\
      List.concat tail = skipn (Z.to_nat i) array /\
      Forall (fun c => 1 <= Z.of_nat (List.length c) <= chunk) tail /\
      (forall pre last, tail = (pre ++ [last])%list ->
         Forall (fun c => Z.of_nat (List.length c) = chunk) pre) /\
      (tail <> [] -> i < Z.of_nat (List.length array)) /\
      Z.of_nat (List.length tail)
        = Z.max 0 ((Z.of_nat (List.length array) - i + chunk - 1) / chunk).
Proof.
  intros Hchunk. set (len := Z.of_nat (List.length array)).
  induction fuel as [| fuel IH]; intros i result Hi Hfuel; [lia |].
  cbn [arrayChunk_loop]. destruct (Z.ltb_spec i len) as [Hlt | Hge].
  - destruct (IH (i + chunk) (result ++ [slice array i (i + chunk)])%list)
      as (tail & Hrun & Hcat & Hsizes & Hfull & Hne & Hcount); [lia | lia |].
    pose proof (slice_length array i chunk ltac:(lia) ltac:(lia)) as Hlen.
    fold len in Hlen.
    exists (slice array i (i + chunk) :: tail). repeat apply conj.
    + rewrite Hrun, <- app_assoc. reflexivity.
    + cbn [List.concat]. rewrite Hcat. symmetry.
      apply slice_then_rest; lia.
    + constructor; [lia | exact Hsizes].
    + intros pre last Heq. destruct pre as [| p pre]; [constructor |].
      cbn in Heq. injection Heq as <- Htail. constructor.
      * assert (tail <> []) as Hnonempty
            by (rewrite Htail; destruct pre; discriminate).
        apply Hne in Hnonempty. lia.
      * exact (Hfull pre last Htail).
    + intros _. exact Hlt.
    + cbn [List.length]. rewrite Nat2Z.inj_succ, Hcount.
      replace (len - i + chunk - 1) with (len - i - 1 + 1 * chunk) by lia.
      rewrite Z.div_add by lia.
      replace (len - (i + chunk) + chunk - 1) with (len - i - 1) by lia.
      pose proof (Z.div_pos (len - i - 1) chunk ltac:(lia) ltac:(lia)). lia.
  - exists []. repeat apply conj.
    + now rewrite app_nil_r.
    + cbn. symmetry. apply skipn_all2. lia.
    + constructor.
    + intros pre last Heq. destruct pre; discriminate.
    + intros Hne. now elim Hne.
    + cbn [List.length].
      assert ((len - i + chunk - 1) / chunk < 1)
        by (apply Z.div_lt_upper_bound; lia).
      lia.
Qed.

(** With [chunk <= 0] the index never gets past a non-empty array. *)
Lemma arrayChunk_loop_stuck array chunk :
  chunk <= 0 ->
  forall (fuel : nat) i (result : list (list A)),
    i < Z.of_nat (List.length array) ->
    arrayChunk_loop fuel array chunk i (Z.of_nat (List.length array)) result
    = None.
Proof.
  intros Hchunk. induction fuel as [| fuel IH]; intros i result Hi;
    [reflexivity |].
  cbn [arrayChunk_loop].
  destruct (Z.ltb_spec i (Z.of_nat (List.length array))); [| lia].
  apply IH. lia.
Qed.

End ChunkFacts.

Import Arrays.

(** X7.  With [chunk >= 1] the loop ends (any fuel above the length of the
    array is enough) and the chunks, put end to end, are the array: nothing
    is lost, repeated or reordered. *)
Theorem arrayChunk_concat :
  forall (A : Type) (array : list A) (chunk : Z) (fuel : nat),
    chunk >= 1 ->
    (List.length array < fuel)%nat ->
    exists chunks,
      arrayChunk fuel array chunk = Some chunks /\ List.concat chunks = array.
Proof.
  intros A array chunk fuel Hchunk Hfuel.
  destruct (arrayChunk_loop_runs A array chunk Hchunk fuel 0 [])
    as (tail & Hrun & Hcat & _); [lia | lia |].
  exists tail. split; [exact Hrun | exact Hcat].
Qed.

Lemma arrayChunk_concat_witness :
  exists chunks,
    arrayChunk 8 [1; 2; 3; 4; 5; 6; 7] 3 = Some chunks /\
    List.concat chunks = [1; 2; 3; 4; 5; 6; 7].
Proof.
  apply (arrayChunk_concat Z [1; 2; 3; 4; 5; 6; 7] 3 8); [lia | cbn; lia].
Defined.

(** X8.  With [chunk >= 1] no chunk is empty, none is longer than [chunk],
    and every chunk but the last has exactly [chunk] elements. *)
Theorem arrayChunk_sizes :
  forall (A : Type) (array : list A) (chunk : Z) (fuel : nat)
         (chunks : list (list A)),
    chunk >= 1 ->
    arrayChunk fuel array chunk = Some chunks ->
    Forall (fun c => 1 <= Z.of_nat (List.length c) <= chunk) chunks /\
    forall pre last, chunks = (pre ++ [last])%list ->
      Forall (fun c => Z.of_nat (List.length c) = chunk) pre.
Proof.
  intros A array chunk fuel chunks Hchunk Hrun.
  assert (exists big, (fuel <= big)%nat /\ (List.length array < big)%nat)
    as (big & Hle & Hbig) by (exists (fuel + S (List.length array))%nat; lia).
  destruct (arrayChunk_loop_runs A array chunk Hchunk big 0 [])
    as (tail & Hbigrun & _ & Hsizes & Hfull & _); [lia | lia |].
  assert (forall (f g : nat) i (result r : list (list A)),
             (f <= g)%nat ->
             arrayChunk_loop f array chunk i (Z.of_nat (List.length array)) result
               = Some r ->
             arrayChunk_loop g array chunk i (Z.of_nat (List.length array)) result
               = Some r) as Hmono.
  { induction f as [| f IHf]; intros g i result r Hfg Hf; [discriminate |].
    destruct g as [| g]; [lia |]. cbn [arrayChunk_loop] in *.
    destruct (i <? Z.of_nat (List.length array)); [| exact Hf].
    apply IHf; [lia | exact Hf]. }
  apply (Hmono fuel big 0 [] chunks Hle) in Hrun.
  unfold arrayChunk in Hrun. rewrite Hbigrun in Hrun.
  injection Hrun as <-. split; assumption.
Qed.

Lemma arrayChunk_sizes_witness :
  Forall (fun c => 1 <= Z.of_nat (List.length c) <= 3)
    [[1; 2; 3]; [4; 5; 6]; [7]] /\
  forall pre last, [[1; 2; 3]; [4; 5; 6]; [7]] = (pre ++ [last])%list ->
    Forall (fun c => Z.of_nat (List.length c) = 3) pre.
Proof.
  apply (arrayChunk_sizes Z [1; 2; 3; 4; 5; 6; 7] 3 8); [lia | reflexivity].
Defined.

(** X9.  With [chunk >= 1] the number of chunks is the length of the array
    divided by [chunk], rounded up. *)
Theorem arrayChunk_count :
  forall (A : Type) (array : list A) (chunk : Z) (fuel : nat),
    chunk >= 1 ->
    (List.length array < fuel)%nat ->
    exists chunks,
      arrayChunk fuel array chunk = Some chunks /\
      Z.of_nat (List.length chunks)
      = (Z.of_nat (List.length array) + chunk - 1) / chunk.
Proof.
  intros A array chunk fuel Hchunk Hfuel.
  destruct (arrayChunk_loop_runs A array chunk Hchunk fuel 0 [])
    as (tail & Hrun & _ & _ & _ & _ & Hcount); [lia | lia |].
  exists tail. split; [exact Hrun |].
  rewrite Hcount, Z.sub_0_r.
  pose proof (Z.div_pos (Z.of_nat (List.length array) + chunk - 1) chunk
                ltac:(lia) ltac:(lia)).
  lia.
Qed.

Lemma arrayChunk_count_witness :
  exists chunks,
    arrayChunk 8 [1; 2; 3; 4; 5; 6; 7] 3 = Some chunks /\
    Z.of_nat (List.length chunks) = (Z.of_nat 7 + 3 - 1) / 3.
Proof.
  apply (arrayChunk_count Z [1; 2; 3; 4; 5; 6; 7] 3 8); [lia | cbn; lia].
Defined.

(** X10.  With [chunk <= 0] and a non-empty array the loop never ends: the
    index does not advance, so no amount of fuel yields a result. *)
Theorem arrayChunk_never_returns :
  forall (A : Type) (array : list A) (chunk : Z),
    chunk <= 0 ->
    array <> [] ->
    forall fuel : nat, arrayChunk fuel array chunk = None.
Proof.
  intros A array chunk Hchunk Hne fuel.
  apply arrayChunk_loop_stuck; [exact Hchunk |].
  destruct array; [now elim Hne | cbn [List.length]; lia].
Qed.

Lemma arrayChunk_never_returns_witness :
  arrayChunk 100 [1; 2; 3] 0 = None.
Proof.
  apply (arrayChunk_never_returns Z [1; 2; 3] 0 ltac:(lia) ltac:(discriminate)
           100%nat).
Defined.

(** ** Cutting text *)

Section TextFacts.
Import Text.
Implicit Types (s a b : string) (n m : nat).

Lemma length_app a b :
  String.length (a ++ b) = (String.length a + String.length b)%nat.
Proof. induction a as [| c a IH]; cbn; [reflexivity | now rewrite IH]. Qed.

Lemma app_assoc_string a b c :
  ((a ++ b) ++ c)%string = (a ++ (b ++ c))%string.
Proof. induction a as [| x a IH]; cbn; [reflexivity | now rewrite IH]. Qed.

Lemma substring_0_0 s : String.substring 0 0 s = EmptyString.
Proof. destruct s; reflexivity. Qed.

Lemma substring_prefix a b :
  String.substring 0 (String.length a) (a ++ b) = a.
Proof.
  induction a as [| c a IH]; cbn; [apply substring_0_0 | now rewrite IH].
Qed.

Lemma substring_whole s m :
  (String.length s <= m)%nat -> String.substring 0 m s = s.
Proof.
  revert m; induction s as [| c s IH]; intros m Hm.
  - destruct m; reflexivity.
  - destruct m as [| m]; cbn in *; [lia |]. rewrite IH by lia. reflexivity.
Qed.

Lemma substring_drop a b m :
  String.substring (String.length a) m (a ++ b) = String.substring 0 m b.
Proof. induction a as [| c a IH]; cbn; [reflexivity | exact IH]. Qed.

Lemma substring_length n m s :
  String.length (String.substring n m s)
  = Nat.min m (String.length s - n).
Proof.
  revert n m; induction s as [| c s IH]; intros n m.
  - destruct n, m; reflexivity.
  - destruct n as [| n].
    + destruct m as [| m]; cbn; [reflexivity |]. rewrite IH. lia.
    + cbn. apply IH.
Qed.

Lemma substring_split s n :
  (n <= String.length s)%nat ->
  s = (String.substring 0 n s
       ++ String.substring n (String.length s - n) s)%string.
Proof.
  revert n; induction s as [| c s IH]; intros n Hn.
  - destruct n; [reflexivity | cbn in Hn; lia].
  - destruct n as [| n]; cbn in *.
    + rewrite substring_whole by lia. reflexivity.
    + rewrite <- IH by lia. reflexivity.
Qed.

(** The two ways the file calls [substr]. *)
Lemma substr_first s (limit : Z) :
  substr s 0 (Some limit)
  = String.substring 0 (Nat.min (Z.to_nat limit) (String.length s)) s.
Proof.
  unfold substr. cbn [Z.ltb Z.compare].
  f_equal; lia.
Qed.

Lemma substr_last s (count : Z) :
  count > 0 ->
  substr s (- count) None
  = String.substring (String.length s - Z.to_nat count)
      (Nat.min (Z.to_nat count) (String.length s)) s.
Proof.
  intros Hc. unfold substr.
  destruct (Z.ltb_spec (- count) 0); [| lia].
  f_equal; lia.
Qed.

Lemma strLimit_long s (limit : Z) :
  limit < Z.of_nat (String.length s) ->
  strLimit s limit
  = (String.substring 0 (Z.to_nat limit) s ++ "...")%string.
Proof.
  intros Hlong. unfold strLimit.
  rewrite Z.gtb_ltb. destruct (Z.ltb_spec limit (Z.of_nat (String.length s)));
    [| lia].
  rewrite substr_first. do 2 f_equal. lia.
Qed.

Lemma strLimit_short s (limit : Z) :
  Z.of_nat (String.length s) <= limit -> strLimit s limit = s.
Proof.
  intros Hshort. unfold strLimit.
  rewrite Z.gtb_ltb. destruct (Z.ltb_spec limit (Z.of_nat (String.length s)));
    [lia | reflexivity].
Qed.

End TextFacts.

Import Text.

(** X11.  A text longer than [limit] is cut to its first [limit] characters,
    followed by three dots. *)
Theorem strLimit_cuts_to_prefix :
  forall (kept rest : string) (limit : Z),
    Z.of_nat (String.length kept) = limit ->
    rest <> EmptyString ->
    strLimit (kept ++ rest) limit = (kept ++ "...")%string.
Proof.
  intros kept rest limit Hkept Hrest.
  rewrite strLimit_long.
  - subst limit. rewrite Nat2Z.id, substring_prefix. reflexivity.
  - rewrite length_app. destruct rest; [now elim Hrest | cbn; lia].
Qed.

Lemma strLimit_cuts_to_prefix_witness :
  strLimit ("hello" ++ " world") 5 = ("hello" ++ "...")%string.
Proof.
  apply (strLimit_cuts_to_prefix "hello" " world" 5);
    [reflexivity | discriminate].
Defined.

(** X12.  With [limit >= 0] the result has as many characters as the text
    when that is at most [limit], and [limit + 3] otherwise; so it never has
    more than [limit + 3]. *)
Theorem strLimit_length :
  forall (str : string) (limit : Z),
    limit >= 0 ->
    Z.of_nat (String.length (strLimit str limit))
    = (if Z.of_nat (String.length str) <=? limit
       then Z.of_nat (String.length str) else limit + 3)
    /\ Z.of_nat (String.length (strLimit str limit)) <= limit + 3.
Proof.
  intros str limit Hlimit.
  destruct (Z.leb_spec (Z.of_nat (String.length str)) limit) as [Hle | Hgt].
  - rewrite strLimit_short by assumption. lia.
  - rewrite strLimit_long by assumption.
    rewrite length_app, substring_length. cbn [String.length]. lia.
Qed.

Lemma strLimit_length_witness :
  Z.of_nat (String.length (strLimit "hello world" 5))
  = (if Z.of_nat (String.length "hello world") <=? 5
     then Z.of_nat (String.length "hello world") else 5 + 3)
  /\ Z.of_nat (String.length (strLimit "hello world" 5)) <= 5 + 3.
Proof.
  apply (strLimit_length "hello world" 5). lia.
Defined.

(** X13.  With [limit >= 0], limiting makes a text longer, not shorter, exactly
    when it exceeds the limit by one or two characters. *)
Theorem strLimit_lengthens_iff :
  forall (str : string) (limit : Z),
    limit >= 0 ->
    (String.length (strLimit str limit) > String.length str)%nat
    <-> limit < Z.of_nat (String.length str) < limit + 3.
Proof.
  intros str limit Hlimit.
  destruct (Z.le_gt_cases (Z.of_nat (String.length str)) limit) as [Hle | Hgt].
  - rewrite strLimit_short by assumption. lia.
  - rewrite strLimit_long by lia.
    rewrite length_app, substring_length. cbn [String.length]. lia.
Qed.

Lemma strLimit_lengthens_iff_witness :
  (String.length (strLimit "hello!" 5) > String.length "hello!")%nat
  <-> 5 < Z.of_nat (String.length "hello!") < 5 + 3.
Proof.
  apply (strLimit_lengthens_iff "hello!" 5). lia.
Defined.

(** X14.  Limiting a second time with the same limit changes nothing more,
    whatever the limit. *)
Theorem strLimit_idempotent :
  forall (str : string) (limit : Z),
    strLimit (strLimit str limit) limit = strLimit str limit.
Proof.
  intros str limit.
  destruct (Z.le_gt_cases (Z.of_nat (String.length str)) limit) as [Hle | Hgt].
  - rewrite (strLimit_short str limit Hle). now apply strLimit_short.
  - rewrite (strLimit_long str limit Hgt).
    set (kept := String.substring 0 (Z.to_nat limit) str).
    assert (String.length kept = Z.to_nat limit) as Hkept
      by (subst kept; rewrite substring_length; lia).
    rewrite strLimit_long by (rewrite length_app; cbn [String.length]; lia).
    f_equal. rewrite <- Hkept. apply substring_prefix.
Qed.

(** X15.  A negative limit leaves nothing of the text: the result is the
    three dots alone. *)
Theorem strLimit_negative_limit :
  forall (str : string) (limit : Z),
    limit < 0 -> strLimit str limit = "...".
Proof.
  intros str limit Hneg.
  rewrite strLimit_long by lia.
  replace (Z.to_nat limit) with 0%nat by lia.
  now rewrite substring_0_0.
Qed.

Lemma strLimit_negative_limit_witness :
  strLimit "hello" (-2) = "...".
Proof.
  apply (strLimit_negative_limit "hello" (-2)). lia.
Defined.

(** X16.  An address of at least ten characters is shortened to its first
    six characters, three dots, and its last four characters. *)
Theorem getShortAddress_keeps_both_ends :
  forall (first middle last : string),
    String.length first = 6%nat ->
    String.length last = 4%nat ->
    getShortAddress (first ++ middle ++ last)
    = (first ++ "..." ++ last)%string.
Proof.
  intros first middle last Hfirst Hlast.
  unfold getShortAddress.
  rewrite substr_first, (substr_last _ 4) by lia.
  rewrite !length_app, Hfirst, Hlast.
  replace (Nat.min (Z.to_nat 6) (6 + (String.length middle + 4)))
    with (String.length first) by lia.
  rewrite substring_prefix.
  replace (6 + (String.length middle + 4) - Z.to_nat 4)%nat
    with (String.length (first ++ middle)) by (rewrite length_app; lia).
  rewrite <- (app_assoc_string first middle last), substring_drop.
  rewrite substring_whole by lia. reflexivity.
Qed.

Lemma getShortAddress_keeps_both_ends_witness :
  getShortAddress
    ("0x1234" ++ "567890abcdef1234567890abcdef1234" ++ "5678")
  = ("0x1234" ++ "..." ++ "5678")%string.
Proof.
  apply (getShortAddress_keeps_both_ends
           "0x1234" "567890abcdef1234567890abcdef1234" "5678");
    reflexivity.
Defined.

(** X17.  A text of at most four characters comes out doubled: once before
    the dots and once after. *)
Theorem getShortAddress_doubles_short_text :
  forall address : string,
    (String.length address <= 4)%nat ->
    getShortAddress address = (address ++ "..." ++ address)%string.
Proof.
  intros address Hshort. unfold getShortAddress.
  rewrite substr_first, (substr_last _ 4) by lia.
  replace (String.length address - Z.to_nat 4)%nat with 0%nat by lia.
  rewrite !substring_whole by lia. reflexivity.
Qed.

Lemma getShortAddress_doubles_short_text_witness :
  getShortAddress "abc" = ("abc" ++ "..." ++ "abc")%string.
Proof.
  apply (getShortAddress_doubles_short_text "abc"). cbn. lia.
Defined.

(** X18.  The short form has the first six characters at most, three dots,
    and the last four at most: never more than thirteen characters, and
    more than the address itself when that has fewer than thirteen. *)
Theorem getShortAddress_length :
  forall address : string,
    String.length (getShortAddress address)
    = (Nat.min 6 (String.length address) + 3
       + Nat.min 4 (String.length address))%nat.
Proof.
  intros address. unfold getShortAddress.
  rewrite substr_first, (substr_last _ 4) by lia.
  rewrite !length_app, !substring_length. cbn [String.length]. lia.
Qed.

(** ** Short forms of an event *)

Import Events.

(** X19.  Whatever the tuple holds, the short name of an event has at most
    28 characters and the short organizer at most 13. *)
Theorem short_forms_bounded :
  forall e : Event,
    (String.length (shortName e) <= 28)%nat /\
    (String.length (shortOrganizer e) <= 13)%nat.
Proof.
  intros e. split.
  - unfold shortName.
    destruct (strLimit_length (name e) 25 ltac:(lia)) as [_ H]. lia.
  - unfold shortOrganizer. rewrite getShortAddress_length. lia.
Qed.

(** ** More on the classification *)

Section Shapes.
Import Js Classifier.

Lemma Substring_trans (p s t : string) :
  Substring p s -> Substring s t -> Substring p t.
Proof.
  intros (a & b & ->) (c & d & ->).
  exists (c ++ a)%string, (b ++ d)%string.
  now rewrite !app_assoc_string.
Qed.

(** Every pattern of the table has a blank in it. *)
Lemma ERRORS_patterns_have_blank :
  forall entry, In entry ERRORS -> Substring " " (fst entry).
Proof.
  intros entry Hin. apply includes_iff. cbn in Hin.
  repeat (destruct Hin as [<- | Hin]; [reflexivity |]). destruct Hin.
Qed.

Lemma Substring_char_in (c : ascii) (s : string) :
  Substring (String c EmptyString) s -> In c (list_ascii_of_string s).
Proof.
  intros (a & b & ->). induction a as [| x a IH]; cbn; [now left | now right].
Qed.

(** A number is written with digits and a sign only. *)
Lemma Number_toString_no_blank (n : Z) :
  ~ Substring " " (Number_toString n).
Proof.
  intros H. apply Substring_char_in in H. unfold Number_toString in H.
  assert (forall d, ~ In " "%char
                      (list_ascii_of_string (NilZero.string_of_uint d)))
    as Hdigits.
  { intros d. unfold NilZero.string_of_uint.
    destruct d; try (cbn; intros [Hd | []]; discriminate Hd);
      cbn [NilEmpty.string_of_uint list_ascii_of_string];
      intros [Hd | Hin]; try discriminate Hd;
      revert Hin;
      match goal with |- In _ (list_ascii_of_string (_ ?u)) -> _ =>
        induction u; cbn; intros Hin;
        try (destruct Hin as [Hd | Hin]; [discriminate Hd |]); auto
      end. }
  destruct (Z.to_int n) as [d | d]; cbn in H.
  - exact (Hdigits d H).
  - destruct H as [Hd | H]; [discriminate Hd | exact (Hdigits d H)].
Qed.

Lemma classify_message_no_blank (msg : string) :
  ~ Substring " " msg -> classify_message msg = None.
Proof.
  intros Hno. apply classify_message_none_iff.
  intros entry Hin Hsub. apply Hno.
  exact (Substring_trans _ _ _ (ERRORS_patterns_have_blank entry Hin) Hsub).
Qed.

End Shapes.

Ltac includes_to_Substring :=
  repeat match goal with
         | H : includes _ _ = true |- _ => apply includes_iff in H
         | H : includes _ _ = false |- _ => apply includes_false_iff in H
         end.

(** X20.  The shape does not matter, only the text: a raw string, a native
    error of any name with that message, and an object carrying that text
    as its [message] are classified alike, for every non-empty text. *)
Theorem same_text_same_triple :
  forall (s errorName : string) (props : list (string * value)),
    s <> EmptyString ->
    own_property "message" props = Some (VString s) ->
    exists h1 h2 h3,
      toErrorHandler (VString s) = Normal h1 /\
      toErrorHandler (VError (mkError errorName s)) = Normal h2 /\
      toErrorHandler (VObject props) = Normal h3 /\
      triple h1 = triple h2 /\ triple h2 = triple h3.
Proof.
  intros s errorName props Hs Hget.
  exists (mkHandler (mkError "Error" s) (classify_message s)),
         (mkHandler (mkError errorName s) (classify_message s)),
         (mkHandler (mkError "Error" s) (classify_message s)).
  repeat split.
  exact (toErrorHandler_message_carrier props s Hget Hs).
Qed.

Lemma same_text_same_triple_witness :
  exists h1 h2 h3,
    toErrorHandler (VString "User rejected the request") = Normal h1 /\
    toErrorHandler (VError (mkError "ProviderRpcError" "User rejected the request"))
      = Normal h2 /\
    toErrorHandler
      (VObject [("code", VNumber 4001);
                ("message", VString "User rejected the request")])
      = Normal h3 /\
    triple h1 = triple h2 /\ triple h2 = triple h3.
Proof.
  apply (same_text_same_triple "User rejected the request" "ProviderRpcError"
           [("code", VNumber 4001);
            ("message", VString "User rejected the request")]);
    [discriminate | reflexivity].
Defined.

(** X21.  An object without a usable [message] (none, or a falsy one such as
    the empty string) is wrapped whole, reads "[object Object]", and gets the
    default record: shown as "Something went wrong." and logged. *)
Theorem object_without_message_is_default :
  forall props : list (string * value),
    own_property "toString" props = None ->
    match own_property "message" props with
    | Some m => ToBoolean m = false
    | None => True
    end ->
    exists h,
      toErrorHandler (VObject props) = Normal h /\
      error_message (error h) = "[object Object]" /\
      triple h = (true, true, "Something went wrong.").
Proof.
  intros props HtoString Hmessage.
  exists (mkHandler (mkError "Error" "[object Object]") None).
  split; [| split; reflexivity].
  unfold toErrorHandler, constructor, wrap.
  cbn [typeof String.eqb Ascii.eqb Bool.eqb Get_message].
  destruct (own_property "message" props) as [m |]; cbn [bind].
  - rewrite Hmessage. cbn [new_Error ToString]. rewrite HtoString. reflexivity.
  - cbn [ToBoolean new_Error ToString]. rewrite HtoString. reflexivity.
Qed.

Lemma object_without_message_is_default_witness :
  exists h,
    toErrorHandler (VObject [("code", VNumber 4001); ("message", VString "")])
      = Normal h /\
    error_message (error h) = "[object Object]" /\
    triple h = (true, true, "Something went wrong.").
Proof.
  apply (object_without_message_is_default
           [("code", VNumber 4001); ("message", VString "")]);
    reflexivity.
Defined.

(** X22.  The constructor throws on these inputs and on no others: [null]; a
    symbol; an object whose truthy [message] is a symbol or an object hiding
    [toString]; an object with no truthy [message] that hides [toString]
    itself. *)
Theorem toErrorHandler_throws_iff :
  forall input : value,
    toErrorHandler input = Throw TypeError <->
    input = VNull \/
    (exists description, input = VSymbol description) \/
    (exists props,
        input = VObject props /\
        match own_property "message" props with
        | Some (VSymbol _) => True
        | Some (VObject inner) => own_property "toString" inner <> None
        | Some m =>
            ToBoolean m = false /\ own_property "toString" props <> None
        | None => own_property "toString" props <> None
        end).
Proof.
  intros input. unfold toErrorHandler, constructor, wrap. split.
  - destruct input as [| | b | n | s | d | e | props];
      cbn; try discriminate; try tauto.
    + intros _. right. left. now exists d.
    + intros H. right. right. exists props. split; [reflexivity |].
      destruct (own_property "message" props) as [m |].
      * destruct m as [| | b | n | s | d | e | inner]; cbn in H |- *;
          try (destruct (own_property "toString" props);
               [split; [reflexivity | discriminate] | discriminate H]);
          try exact I.
        -- destruct b; cbn in H; [discriminate H |].
           destruct (own_property "toString" props);
             [split; [reflexivity | discriminate] | discriminate H].
        -- destruct (n =? 0); cbn in H; [| discriminate H].
           destruct (own_property "toString" props);
             [split; [reflexivity | discriminate] | discriminate H].
        -- destruct (String.eqb s EmptyString); cbn in H; [| discriminate H].
           destruct (own_property "toString" props);
             [split; [reflexivity | discriminate] | discriminate H].
        -- discriminate H.
        -- destruct (own_property "toString" inner);
             [discriminate | discriminate H].
      * cbn in H. destruct (own_property "toString" props);
          [discriminate | discriminate H].
  - intros [-> | [[d ->] | (props & -> & H)]]; [reflexivity | reflexivity |].
    cbn. destruct (own_property "message" props) as [m |].
    + destruct m as [| | b | n | s | d | e | inner]; cbn;
        try (destruct H as [Hfalsy Hhide]);
        try (cbn in Hfalsy; try discriminate Hfalsy);
        try reflexivity.
      * destruct (own_property "toString" props);
          [reflexivity | now elim Hhide].
      * destruct (own_property "toString" props);
          [reflexivity | now elim Hhide].
      * subst b. cbn.
        destruct (own_property "toString" props);
          [reflexivity | now elim Hhide].
      * rewrite Hfalsy. cbn.
        destruct (own_property "toString" props);
          [reflexivity | now elim Hhide].
      * rewrite Hfalsy. cbn.
        destruct (own_property "toString" props);
          [reflexivity | now elim Hhide].
      * destruct (own_property "toString" inner);
          [reflexivity | now elim H].
    + cbn. destruct (own_property "toString" props);
        [reflexivity | now elim H].
Qed.

(** X23.  [handleError] writes to the console exactly when no pattern of the
    table occurs in the message; what it writes is the value it was handed,
    not the wrapped error; and whenever it logs it also alerts "Something
    went wrong.". *)
Theorem handleError_logs_iff_unmatched :
  forall (input : value) (msg : string),
    normalized_message input = Normal msg ->
    exists alerted logged,
      handleError input = Normal (alerted, logged) /\
      (logged = None \/ logged = Some input) /\
      (logged = Some input <->
       forall entry, In entry ERRORS -> ~ Substring (fst entry) msg) /\
      (logged = Some input -> alerted = Some "Something went wrong.").
Proof.
  intros input msg Hnorm.
  destruct (toErrorHandler_of_normalized input msg Hnorm) as (e & _ & Hh).
  unfold handleError. rewrite Hh. cbn [bind].
  unfold displayError, log, message; cbn [_error].
  pose proof (classify_message_none_iff msg) as Hnone.
  destruct (classify_message msg) as [r |] eqn:Hcls.
  - destruct (classify_message_in_table _ _ Hcls) as (pattern & Hin & Hsub).
    pose proof (ERRORS_never_log _ Hin) as Hlog. cbn [snd] in Hlog.
    rewrite Hlog. eexists _, None. split; [reflexivity |].
    split; [now left |]. split; [split |]; try discriminate.
    intros Hnot. exfalso. exact (Hnot _ Hin Hsub).
  - exists (Some "Something went wrong."), (Some input).
    split; [reflexivity |]. split; [now right |]. split; [| reflexivity].
    split; [intros _; now apply Hnone | reflexivity].
Qed.

Lemma handleError_logs_iff_unmatched_witness :
  exists alerted logged,
    handleError (VString "timeout") = Normal (alerted, logged) /\
    (logged = None \/ logged = Some (VString "timeout")) /\
    (logged = Some (VString "timeout") <->
     forall entry, In entry ERRORS -> ~ Substring (fst entry) "timeout") /\
    (logged = Some (VString "timeout") ->
     alerted = Some "Something went wrong.").
Proof.
  apply (handleError_logs_iff_unmatched (VString "timeout") "timeout").
  reflexivity.
Defined.

(** X24.  [handleError] stays silent, neither alerting nor logging, exactly
    when the message has "User denied transaction signature" in it and none
    of the three patterns declared before it. *)
Theorem handleError_silent_iff_denied_signature :
  forall (input : value) (msg : string),
    normalized_message input = Normal msg ->
    (handleError input = Normal (None, None) <->
     Substring "User denied transaction signature" msg /\
     ~ Substring "You have no Metamask installed" msg /\
     ~ Substring "You are connected to the wrong network" msg /\
     ~ Substring "User rejected the request" msg).
Proof.
  intros input msg Hnorm.
  destruct (toErrorHandler_of_normalized input msg Hnorm) as (e & _ & Hh).
  unfold handleError. rewrite Hh. cbn [bind].
  unfold displayError, log, message; cbn [_error].
  rewrite classify_message_first_match.
  unfold first_match, ERRORS. cbn [find fst].
  destruct (includes msg "You have no Metamask installed") eqn:H1;
    [| destruct (includes msg "You are connected to the wrong network") eqn:H2;
       [| destruct (includes msg "User rejected the request") eqn:H3;
          [| destruct (includes msg "User denied transaction signature") eqn:H4;
             [| destruct (includes msg
                            "Loketh: Organizer can not buy their own event");
                [| destruct (includes msg
                               "Loketh: Participant already bought the ticket")]]]]];
    cbn; includes_to_Substring;
    (split; [intros Heq; first [discriminate Heq | tauto]
            | intros (? & ? & ? & ?); first [reflexivity | contradiction]]).
Qed.

Lemma handleError_silent_iff_denied_signature_witness :
  handleError
    (VError (mkError "Error" "User denied transaction signature by account"))
    = Normal (None, None) <->
  Substring "User denied transaction signature"
    "User denied transaction signature by account" /\
  ~ Substring "You have no Metamask installed"
      "User denied transaction signature by account" /\
  ~ Substring "You are connected to the wrong network"
      "User denied transaction signature by account" /\
  ~ Substring "User rejected the request"
      "User denied transaction signature by account".
Proof.
  apply (handleError_silent_iff_denied_signature
           (VError (mkError "Error" "User denied transaction signature by account"))
           "User denied transaction signature by account").
  reflexivity.
Defined.

(** X25.  Text around a recognised message does not hide it: if a text is
    classified by the table (its [log] flag is false), so is every text that
    contains it. *)
Theorem matched_text_stays_matched :
  forall (before s after : string) (h : ErrorHandler),
    toErrorHandler (VString s) = Normal h ->
    log h = false ->
    exists h',
      toErrorHandler (VString (before ++ s ++ after)) = Normal h' /\
      log h' = false.
Proof.
  intros before s after h Hh Hlog.
  exists (mkHandler (mkError "Error" (before ++ s ++ after))
            (classify_message (before ++ s ++ after))).
  split; [reflexivity |].
  assert (classify_message s <> None) as Hs.
  { intros Hnone. revert Hlog. injection Hh as <-.
    unfold log; cbn [_error error_message]. rewrite Hnone. discriminate. }
  unfold log; cbn [_error].
  destruct (classify_message (before ++ s ++ after)) as [r |] eqn:Hcls.
  - destruct (classify_message_in_table _ _ Hcls) as (pattern & Hin & _).
    exact (ERRORS_never_log _ Hin).
  - exfalso. apply Hs. apply classify_message_none_iff.
    intros entry Hin Hsub.
    apply (proj1 (classify_message_none_iff _) Hcls entry Hin).
    apply (Substring_trans _ _ _ Hsub). now exists before, after.
Qed.

Lemma matched_text_stays_matched_witness :
  exists h',
    toErrorHandler
      (VString ("Error: " ++ "User rejected the request" ++ " (code 4001)"))
      = Normal h' /\
    log h' = false.
Proof.
  apply (matched_text_stays_matched "Error: " "User rejected the request"
           " (code 4001)"
           (mkHandler (mkError "Error" "User rejected the request")
              (Some (mkRecord true false "You rejected the connect request."))));
    reflexivity.
Defined.

(** X26.  A number, a boolean or [undefined] handed to the classifier is
    never recognised: it gets the default record, shown as "Something went
    wrong." and logged. *)
Theorem primitive_is_default :
  forall input : value,
    match input with
    | VUndefined | VBoolean _ | VNumber _ => True
    | _ => False
    end ->
    exists h,
      toErrorHandler input = Normal h /\
      triple h = (true, true, "Something went wrong.").
Proof.
  intros input Hshape.
  destruct input as [| | b | n | s | d | e | props]; try contradiction.
  - eexists; split; reflexivity.
  - destruct b; eexists; split; reflexivity.
  - exists (mkHandler (mkError "Error" (Number_toString n))
              (classify_message (Number_toString n))).
    split; [reflexivity |].
    unfold triple, displayError, log, message; cbn [_error].
    rewrite (classify_message_no_blank _ (Number_toString_no_blank n)).
    reflexivity.
Qed.

Lemma primitive_is_default_witness :
  exists h,
    toErrorHandler (VNumber 4001) = Normal h /\
    triple h = (true, true, "Something went wrong.").
Proof.
  apply (primitive_is_default (VNumber 4001)). exact I.
Defined.
